(** * Real-time collaboration core: connection registry and message dispatch

    A shallow embedding of
      - [app/services/websocket_manager.py]  (class [WebSocketManager]),
      - [app/routers/websocket.py]           (coroutine [websocket_endpoint]),
      - [app/schemas/websocket.py]           (model [WebSocketMessage]),
      - [app/services/room_service.py]       (the three store calls used above),
    followed by the properties of the registry and of the dispatch loop.

    Coroutines are embedded in a state-and-exception monad over a [World]
    that holds the manager's dictionary, the rooms table, the health of
    every transport and a log of the calls made to the outside.  Each manager
    method and each iteration of the receive loop runs without interleaving:
    the embedding describes one task between two points where it hands
    control back to the event loop for a new frame.  What lies outside the
    repository is a parameter: [json.loads] and [json.dumps], pydantic's
    validators for [str] and [int], and what the caller's ORM session does
    with an assignment to a row it holds. *)

From stdpp Require Import gmap strings list fin_maps pretty.
From Stdlib Require Import ZArith Ascii.

Open Scope string_scope.
Open Scope list_scope.
Open Scope nat_scope.

(** ** Values exchanged with the outside *)

(** A [fastapi.WebSocket] is compared by object identity ([in], [remove] and
    [!=] on connections all go through identity), so a connection is its
    identity. *)
Abbreviation WebSocket := nat.

(** Python values produced by [json.loads] and consumed by [json.dumps].
    A dict is the list of its items; a key is looked up from the left. *)
#[warnings="-register-all"]
Inductive json : Type :=
  | JNull
  | JBool (b : bool)
  | JInt (z : Z)
  | JFloat (literal : string)
  | JStr (s : string)
  | JArr (items : list json)
  | JObj (items : list (string * json)).

Fixpoint dict_get (k : string) (d : list (string * json)) : option json :=
  match d with
  | [] => None
  | (k', v) :: d' => if decide (k = k') then Some v else dict_get k d'
  end.

(** The exception classes that occur in the embedded code.  All of them
    derive from [Exception].  [JSONDecodeError] is a subclass of
    [ValueError] and [RecursionError] one of [RuntimeError]: the
    constructor [ValueError] stands for a [ValueError] that is not a
    [JSONDecodeError], and [RuntimeError] for what a transport raises. *)
Inductive Exn : Type :=
  | WebSocketDisconnect
  | RuntimeError
  | JSONDecodeError
  | ValidationError
  | TypeError
  | SQLAlchemyError
  | ValueError
  | RecursionError.

Global Instance Exn_eq_dec : EqDecision Exn.
Proof. solve_decision. Defined.

(** Calls that leave the process, in the order they are made.  [Send] records
    whether the transport took the frame. *)
Inductive Event : Type :=
  | Accept (ws : WebSocket)
  | Send (ws : WebSocket) (text : string) (delivered : bool)
  | Close (ws : WebSocket) (code : Z) (reason : string)
  | StoreUpdate (room_id : string) (code : string).

Global Instance Event_eq_dec : EqDecision Event.
Proof. solve_decision. Defined.

(** ** The world a task runs in *)

Record World : Type := mkWorld {
  (** [WebSocketManager.active_connections : Dict[str, List[WebSocket]]] *)
  active_connections : gmap string (list WebSocket);
  (** table [rooms]: [room_id] to [code] *)
  rooms : gmap string string;
  (** whether statements sent to the database succeed; the database is up
      or down for the whole of a call *)
  db_up : bool;
  (** transports on which [accept], [send_text] and [close] raise *)
  broken : gset WebSocket;
  (** calls made so far, oldest first *)
  trace : list Event
}.

Definition set_connections (ac : gmap string (list WebSocket)) (w : World) : World :=
  mkWorld ac (rooms w) (db_up w) (broken w) (trace w).

Definition set_rooms (rs : gmap string string) (w : World) : World :=
  mkWorld (active_connections w) rs (db_up w) (broken w) (trace w).

Definition set_db_up (b : bool) (w : World) : World :=
  mkWorld (active_connections w) (rooms w) b (broken w) (trace w).

Definition set_broken (bk : gset WebSocket) (w : World) : World :=
  mkWorld (active_connections w) (rooms w) (db_up w) bk (trace w).

Definition log (e : Event) (w : World) : World :=
  mkWorld (active_connections w) (rooms w) (db_up w) (broken w) (trace w ++ [e]).

(** The sessions registered for a room ([[]] when the room has no entry). *)
Definition members (room_id : string) (w : World) : list WebSocket :=
  default [] (active_connections w !! room_id).

(** ** State and exception monad *)

Inductive Res (A : Type) : Type :=
  | Ret (a : A)
  | Raise (e : Exn).
Arguments Ret {A} a.
Arguments Raise {A} e.

Definition M (A : Type) : Type := World → Res A * World.

Definition ret {A} (a : A) : M A := λ w, (Ret a, w).

Definition raise {A} (e : Exn) : M A := λ w, (Raise e, w).

Definition bind {A B} (m : M A) (k : A → M B) : M B :=
  λ w, match m w with
       | (Ret a, w') => k a w'
       | (Raise e, w') => (Raise e, w')
       end.

(** [try: m  except ...: h].  The handler table [h] answers [None] for an
    exception no [except] clause matches; the exception then propagates. *)
Definition try_except {A} (m : M A) (h : Exn → option (M A)) : M A :=
  λ w, match m w with
       | (Ret a, w') => (Ret a, w')
       | (Raise e, w') =>
           match h e with
           | Some k => k w'
           | None => (Raise e, w')
           end
       end.

Definition get {A} (f : World → A) : M A := λ w, (Ret (f w), w).

Definition modify (f : World → World) : M unit := λ w, (Ret (), f w).

Notation "x <- m ;; k" := (bind m (λ x, k))
  (at level 100, m at next level, right associativity, only parsing).
Notation "m ;;; k" := (bind m (λ _, k))
  (at level 100, right associativity, only parsing).

(** [except Exception:] *)
Definition except_Exception {A} (k : M A) : Exn → option (M A) := λ _, Some k.

(** ** The transport (Starlette's [WebSocket] methods) *)

(** Whether a call on a transport returns or raises is for the outside to
    decide: [broken] lists the transports whose calls raise. *)

Definition accept (ws : WebSocket) : M unit :=
  λ w, if decide (ws ∈ broken w)
       then (Raise RuntimeError, w)
       else (Ret (), log (Accept ws) w).

Definition send_text (ws : WebSocket) (text : string) : M unit :=
  λ w, if decide (ws ∈ broken w)
       then (Raise RuntimeError, log (Send ws text false) w)
       else (Ret (), log (Send ws text true) w).

Definition close (ws : WebSocket) (code : Z) (reason : string) : M unit :=
  λ w, if decide (ws ∈ broken w)
       then (Raise RuntimeError, log (Close ws code reason) w)
       else (Ret (), log (Close ws code reason) w).

(** ** [json] and [pydantic] *)

(** [json.loads] answers [None] where it raises, and [json_loads_error]
    is what it raises then: [JSONDecodeError] for a text that is not JSON,
    but also [ValueError] for an integer literal beyond the interpreter's
    digit limit and [RecursionError] for a text nested too deep. *)
Class JsonCodec : Type := {
  json_loads : string → option json;
  json_loads_error : string → Exn;
  json_dumps : json → string
}.

(** ** [WebSocketManager] *)

(** [list.remove(x)]: drops the first occurrence. *)
Fixpoint list_remove (x : WebSocket) (l : list WebSocket) : list WebSocket :=
  match l with
  | [] => []
  | y :: l' => if decide (x = y) then l' else y :: list_remove x l'
  end.

(** The dictionary updates of [connect] and [disconnect]. *)
Definition registry_add (room_id : string) (websocket : WebSocket)
    (ac : gmap string (list WebSocket)) : gmap string (list WebSocket) :=
  let ac := if decide (room_id ∈ dom ac) then ac else <[room_id := []]> ac in
  <[room_id := default [] (ac !! room_id) ++ [websocket]]> ac.

Definition registry_remove (room_id : string) (websocket : WebSocket)
    (ac : gmap string (list WebSocket)) : gmap string (list WebSocket) :=
  match ac !! room_id with
  | None => ac
  | Some conns =>
      let conns := if decide (websocket ∈ conns)
                   then list_remove websocket conns else conns in
      let ac := <[room_id := conns]> ac in
      (* Clean up empty room entries *)
      if decide (length conns = 0) then delete room_id ac else ac
  end.

Definition connect (room_id : string) (websocket : WebSocket) : M unit :=
  accept websocket ;;;
  modify (λ w, set_connections
                 (registry_add room_id websocket (active_connections w)) w).

Definition disconnect (room_id : string) (websocket : WebSocket) : M unit :=
  modify (λ w, set_connections
                 (registry_remove room_id websocket (active_connections w)) w).

Section Manager.
Context `{JsonCodec}.

(** The first loop of [broadcast]: one [send_text] per listed connection
    other than [exclude]; a connection whose send raises is collected. *)
Fixpoint send_each (message_json : string) (exclude : option WebSocket)
    (conns : list WebSocket) (disconnected_websockets : list WebSocket)
    : M (list WebSocket) :=
  match conns with
  | [] => ret disconnected_websockets
  | connection :: rest =>
      dw <- (if decide (Some connection ≠ exclude)
             then try_except
                    (send_text connection message_json ;;;
                     ret disconnected_websockets)
                    (except_Exception
                       (ret (disconnected_websockets ++ [connection])))
             else ret disconnected_websockets) ;;
      send_each message_json exclude rest dw
  end.

(** The second loop of [broadcast]. *)
Fixpoint disconnect_each (room_id : string) (wss : list WebSocket) : M unit :=
  match wss with
  | [] => ret ()
  | ws :: rest => disconnect room_id ws ;;; disconnect_each room_id rest
  end.

Definition broadcast (room_id : string) (message : json)
    (exclude : option WebSocket) : M unit :=
  ac <- get active_connections ;;
  match ac !! room_id with
  | None => ret ()
  | Some conns =>
      let message_json := json_dumps message in
      dw <- send_each message_json exclude conns [] ;;
      disconnect_each room_id dw
  end.

End Manager.

(** ** [WebSocketMessage] (pydantic model) *)

(** The validators pydantic runs for the annotations [str] and [int]; [None]
    stands for a validation error.  A value of the annotated type is taken
    as it is and a list is refused.  How other scalars are coerced differs
    between pydantic releases and is left open. *)
Class FieldValidators : Type := {
  validate_str : json → option string;
  validate_int : json → option Z;
  validate_str_str : ∀ s, validate_str (JStr s) = Some s;
  validate_int_int : ∀ z, validate_int (JInt z) = Some z;
  validate_str_arr : ∀ l, validate_str (JArr l) = None
}.

Record WebSocketMessage : Type := mkWebSocketMessage {
  type : string;
  code : option string;
  timestamp : option Z;
  message : option string;
  roomId : option string
}.

(** A field without default: the key must be there. *)
Definition required {A} (v : json → option A) (k : string)
    (d : list (string * json)) : option A :=
  match dict_get k d with
  | None => None
  | Some x => v x
  end.

(** A field annotated [Optional[...] = None]. *)
Definition optional {A} (v : json → option A) (k : string)
    (d : list (string * json)) : option (option A) :=
  match dict_get k d with
  | None => Some None
  | Some JNull => Some None
  | Some x => match v x with
              | Some a => Some (Some a)
              | None => None
              end
  end.

(** The fields the model declares. *)
Definition declared_fields : list string :=
  ["type"; "code"; "timestamp"; "message"; "roomId"].

Section Schema.
Context `{FieldValidators}.

(** The constructor of [WebSocketMessage], called with the items of a
    dict as keyword arguments: keys that are not fields of the model are
    not looked at (pydantic's default, extra fields are ignored). *)
Definition validate_message (kwargs : list (string * json))
    : option WebSocketMessage :=
  match required validate_str "type" kwargs,
        optional validate_str "code" kwargs,
        optional validate_int "timestamp" kwargs,
        optional validate_str "message" kwargs,
        optional validate_str "roomId" kwargs with
  | Some t, Some c, Some ts, Some m, Some r =>
      Some (mkWebSocketMessage t c ts m r)
  | _, _, _, _, _ => None
  end.

Definition WebSocketMessage_init (kwargs : list (string * json))
    : M WebSocketMessage :=
  match validate_message kwargs with
  | Some msg => ret msg
  | None => raise ValidationError
  end.

End Schema.

(** ** [room_service] *)

(** [db.execute(select(Room).where(Room.room_id == room_id))] followed by
    [scalar_one_or_none()].  Of a [Room] row the core reads [code] only, so
    a row is its [code]. *)
Definition select_room (room_id : string) : M (option string) :=
  λ w, if db_up w
       then (Ret (rooms w !! room_id), w)
       else (Raise SQLAlchemyError, w).

(** [except SQLAlchemyError as e: raise e] hands the exception on. *)
Definition get_room (room_id : string) : M (option string) :=
  select_room room_id.

Definition room_exists (room_id : string) : M bool :=
  room <- select_room room_id ;;
  ret (bool_decide (room ≠ None)).

(** What the caller's ORM session makes of [room.code = code].  Every
    connection has a session of its own, made with [expire_on_commit=False],
    and a session that still holds the [Room] it loaded for an earlier
    update hands that object out again.  The assignment is then compared
    with the value the object holds: when they are equal the flush leaves
    [code] out of its UPDATE and the row keeps whatever another session
    has written since.  Whether the assignment reaches the table is the
    session's to say, from the world the call is made in. *)
Class OrmSession : Type := {
  flushes_code : World → string → string → bool
}.

(** [db.commit()] with [code] as the value of the row's column. *)
Definition commit_code (room_id code : string) : M unit :=
  λ w, if db_up w
       then (Ret (), set_rooms (<[room_id := code]> (rooms w)) w)
       else (Raise SQLAlchemyError, w).

(** [room.code = code; db.commit(); db.refresh(room)]: the row returned is
    the row as the table holds it after the commit.  The handler
    [db.rollback(); raise e] leaves the table as it was. *)
Definition update_room_code `{OrmSession} (room_id code : string)
    : M (option string) :=
  modify (log (StoreUpdate room_id code)) ;;;
  room <- get_room room_id ;;
  match room with
  | Some stored =>
      flushed <- get (λ w, flushes_code w room_id code) ;;
      let written := if flushed then code else stored in
      commit_code room_id written ;;;
      ret (Some written)
  | None => ret None
  end.

(** ** [websocket_endpoint] *)

Definition error_message (text : string) : json :=
  JObj [("type", JStr "error"); ("message", JStr text)].

Definition json_of_timestamp (ts : option Z) : json :=
  match ts with
  | Some z => JInt z
  | None => JNull
  end.

Definition code_update_message (c : string) (ts : option Z) : json :=
  JObj [("type", JStr "code_update"); ("code", JStr c);
        ("timestamp", json_of_timestamp ts)].

(** What [websocket.receive_text()] does next: hand over a text frame or
    raise ([WebSocketDisconnect] when the client has gone). *)
Inductive Inbound : Type :=
  | Text (data : string)
  | Fails (e : Exn).

(** Where the coroutine stands: suspended in [receive_text], or finished. *)
Inductive Status : Type :=
  | Awaiting
  | Returned.

Section Endpoint.
Context `{JsonCodec} `{FieldValidators} `{OrmSession}.

Definition send_initial_state (websocket : WebSocket) (room_id : string)
    : M unit :=
  try_except
    (room <- get_room room_id ;;
     match room with
     | None =>
         send_text websocket (json_dumps (error_message "Room not found"))
     | Some room_code =>
         send_text websocket
           (json_dumps (JObj [("type", JStr "initial_state");
                              ("code", JStr room_code);
                              ("roomId", JStr room_id)]))
     end)
    (except_Exception
       (send_text websocket
          (json_dumps (error_message "Failed to retrieve initial state")))).

(** The branches taken once a frame has passed validation.  A [continue]
    ends the iteration, as does falling off the end of the [try]. *)
Definition dispatch (room_id : string) (websocket : WebSocket)
    (msg : WebSocketMessage) : M unit :=
  if decide (type msg = "code_update") then
    match code msg with
    | None =>
        send_text websocket
          (json_dumps
             (error_message "Missing 'code' field in code_update message"))
    | Some c =>
        try_except
          (updated_room <- update_room_code room_id c ;;
           match updated_room with
           | None =>
               send_text websocket
                 (json_dumps (error_message "Failed to update room code"))
           | Some _ =>
               broadcast room_id (code_update_message c (timestamp msg))
                 (Some websocket)
           end)
          (except_Exception
             (send_text websocket
                (json_dumps (error_message "Database error occurred"))))
    end
  else
    send_text websocket
      (json_dumps (error_message ("Unknown message type: " +:+ type msg))).

(** The call that unpacks [message_dict] into keyword arguments of
    [WebSocketMessage]: unpacking anything but a dict raises [TypeError]
    before pydantic is entered. *)
Definition parse_message (message_dict : json) : M WebSocketMessage :=
  match message_dict with
  | JObj kwargs => WebSocketMessage_init kwargs
  | _ => raise TypeError
  end.

(** One iteration of [while True], from the frame just received. *)
Definition loop_body (room_id : string) (websocket : WebSocket)
    (data : string) : M unit :=
  try_except
    (message_dict <- match json_loads data with
                     | Some v => ret v
                     | None => raise (json_loads_error data)
                     end ;;
     msg <- parse_message message_dict ;;
     dispatch room_id websocket msg)
    (λ e, match e with
          | JSONDecodeError =>
              Some (send_text websocket
                      (json_dumps (error_message "Invalid JSON format")))
          | ValidationError =>
              Some (send_text websocket
                      (json_dumps (error_message "Invalid message format")))
          | _ => None
          end).

(** [while True] against the frames the transport will hand over; when
    they are used up the coroutine stays suspended in [receive_text]. *)
Fixpoint receive_loop (room_id : string) (websocket : WebSocket)
    (inbound : list Inbound) : M Status :=
  match inbound with
  | [] => ret Awaiting
  | Text data :: rest =>
      loop_body room_id websocket data ;;;
      receive_loop room_id websocket rest
  | Fails e :: _ => raise e
  end.

(** The two outer handlers, [except WebSocketDisconnect] and
    [except Exception], both deregister the session; the coroutine then
    returns. *)
Definition session_guard (room_id : string) (websocket : WebSocket)
    (body : M Status) : M Status :=
  try_except body
    (λ e, match e with
          | WebSocketDisconnect =>
              Some (disconnect room_id websocket ;;; ret Returned)
          | _ =>
              Some (disconnect room_id websocket ;;; ret Returned)
          end).

Definition websocket_endpoint (websocket : WebSocket) (room_id : string)
    (inbound : list Inbound) : M Status :=
  found <- room_exists room_id ;;
  if negb found then
    close websocket 4004%Z "Room not found" ;;;
    ret Returned
  else
    connect room_id websocket ;;;
    session_guard room_id websocket
      (send_initial_state websocket room_id ;;;
       receive_loop room_id websocket inbound).

(** The coroutine picked up again where it was suspended. *)
Definition resume (websocket : WebSocket) (room_id : string)
    (inbound : list Inbound) : M Status :=
  session_guard room_id websocket (receive_loop room_id websocket inbound).

End Endpoint.

(** ** Driving the manager *)

(** A call to one of the three methods, or the transports changing health
    between two calls. *)
Inductive ManagerCall : Type :=
  | CallConnect (room_id : string) (websocket : WebSocket)
  | CallDisconnect (room_id : string) (websocket : WebSocket)
  | CallBroadcast (room_id : string) (msg : json) (exclude : option WebSocket)
  | TransportsBecome (bk : gset WebSocket).

(** A manager as [WebSocketManager()] leaves it. *)
Definition new_manager (rs : gmap string string) (up : bool)
    (bk : gset WebSocket) : World :=
  mkWorld ∅ rs up bk [].

Section Calls.
Context `{JsonCodec}.

(** The world after a call; an exception raised by the call reaches the
    caller and the manager lives on. *)
Definition call (c : ManagerCall) (w : World) : World :=
  match c with
  | CallConnect r ws => snd (connect r ws w)
  | CallDisconnect r ws => snd (disconnect r ws w)
  | CallBroadcast r msg ex => snd (broadcast r msg ex w)
  | TransportsBecome bk => set_broken bk w
  end.

Definition run_calls (cs : list ManagerCall) (w : World) : World :=
  foldl (λ w c, call c w) w cs.

End Calls.

(** No room is listed with an empty list of sessions. *)
Definition no_empty_room (ac : gmap string (list WebSocket)) : Prop :=
  map_Forall (λ _ conns, conns ≠ []) ac.

(** How often a session is listed. *)
Fixpoint occurrences (x : WebSocket) (l : list WebSocket) : nat :=
  match l with
  | [] => 0
  | y :: l' => (if decide (x = y) then 1 else 0) + occurrences x l'
  end.

(** ** What a broadcast does, in closed form *)

Definition logs (evs : list Event) (w : World) : World :=
  mkWorld (active_connections w) (rooms w) (db_up w) (broken w) (trace w ++ evs).

(** The connections a broadcast sends to, one per listing. *)
Definition recipients (exclude : option WebSocket) (conns : list WebSocket)
    : list WebSocket :=
  filter (λ c, Some c ≠ exclude) conns.

Definition send_events (text : string) (exclude : option WebSocket)
    (bk : gset WebSocket) (conns : list WebSocket) : list Event :=
  (λ c, Send c text (bool_decide (c ∉ bk))) <$> recipients exclude conns.

Definition failed_sends (exclude : option WebSocket) (bk : gset WebSocket)
    (conns : list WebSocket) : list WebSocket :=
  filter (λ c, c ∈ bk) (recipients exclude conns).

(** ** The server as a whole *)

(** The manager is one object shared by every coroutine; [tasks] lists the
    coroutines suspended in [receive_text], with the room each serves. *)
Record System : Type := mkSystem {
  world : World;
  tasks : gmap WebSocket string
}.

Inductive Action : Type :=
  (** a client opens [/ws/{room_id}]: the coroutine runs up to its first
      [receive_text], or to its end *)
  | ClientConnects (websocket : WebSocket) (room_id : string)
  (** the [receive_text] of a suspended coroutine completes *)
  | TransportDelivers (websocket : WebSocket) (i : Inbound)
  (** [POST /rooms] has committed a row with an unused id and empty code *)
  | RoomCreated (room_id : string)
  | TransportsChange (bk : gset WebSocket)
  | DatabaseChanges (up : bool).

Section Server.
Context `{JsonCodec} `{FieldValidators} `{OrmSession}.

Definition step (a : Action) (s : System) : System :=
  match a with
  | ClientConnects ws r =>
      if decide (ws ∈ dom (tasks s)) then s
      else match websocket_endpoint ws r [] (world s) with
           | (Ret Awaiting, w') => mkSystem w' (<[ws := r]> (tasks s))
           | (_, w') => mkSystem w' (tasks s)
           end
  | TransportDelivers ws i =>
      match tasks s !! ws with
      | None => s
      | Some r =>
          match resume ws r [i] (world s) with
          | (Ret Awaiting, w') => mkSystem w' (tasks s)
          | (_, w') => mkSystem w' (delete ws (tasks s))
          end
      end
  | RoomCreated r =>
      if db_up (world s) && bool_decide (rooms (world s) !! r = None)
      then mkSystem (set_rooms (<[r := ""]> (rooms (world s))) (world s))
             (tasks s)
      else s
  | TransportsChange bk => mkSystem (set_broken bk (world s)) (tasks s)
  | DatabaseChanges up => mkSystem (set_db_up up (world s)) (tasks s)
  end.

Definition run (acts : list Action) (s : System) : System :=
  foldl (λ s a, step a s) s acts.

(** The process starts with a fresh manager over whatever rows the
    database holds. *)
Definition boot (rs : gmap string string) : System :=
  mkSystem (new_manager rs true ∅) ∅.

Definition reachable (s : System) : Prop :=
  ∃ rs acts, s = run acts (boot rs).

End Server.

(** Every room with sessions is a row of the table. *)
Definition rooms_known (w : World) : Prop :=
  dom (active_connections w) ⊆ dom (rooms w).

(** From [w] to [w'] no room gained an entry and no row was lost. *)
Definition settles (w w' : World) : Prop :=
  dom (active_connections w') ⊆ dom (active_connections w)
  ∧ dom (rooms w) ⊆ dom (rooms w').

(** A computation that, however it ends, only settles the world. *)
Definition settling {A} (m : M A) : Prop :=
  ∀ w, settles w (snd (m w)).

(** ** Instances to run the embedding on *)

Definition dquote : ascii := ascii_of_nat 34.

Definition backslash : ascii := ascii_of_nat 92.

Fixpoint escape (s : string) : string :=
  match s with
  | EmptyString => EmptyString
  | String c s' =>
      if decide (c = dquote ∨ c = backslash)
      then String backslash (String c (escape s'))
      else String c (escape s')
  end.

Definition quoted (s : string) : string :=
  String dquote (escape s) +:+ String dquote EmptyString.

Fixpoint join (sep : string) (l : list string) : string :=
  match l with
  | [] => EmptyString
  | [x] => x
  | x :: l' => x +:+ sep +:+ join sep l'
  end.

(** [json.dumps] with its default separators, on values whose strings are
    printable ASCII. *)
Fixpoint dumps (v : json) : string :=
  match v with
  | JNull => "null"
  | JBool b => if b then "true" else "false"
  | JInt z => pretty z
  | JFloat literal => literal
  | JStr s => quoted s
  | JArr items => "[" +:+ join ", " (map dumps items) +:+ "]"
  | JObj items =>
      "{" +:+ join ", " (map (λ kv, match kv with
                                    | (k, x) => quoted k +:+ ": " +:+ dumps x
                                    end) items) +:+ "}"
  end.

(** The payloads the examples below put on the wire. *)
Definition frame_update : json :=
  JObj [("type", JStr "code_update"); ("code", JStr "x=1");
        ("timestamp", JInt 42)].

Definition frame_no_code : json :=
  JObj [("type", JStr "code_update"); ("timestamp", JInt 7)].

Definition frame_array : json := JArr [JInt 1].

Definition frame_code_list : json :=
  JObj [("type", JStr "code_update"); ("code", JArr [JStr "x"])].

Definition frame_extra : json :=
  JObj [("type", JStr "code_update"); ("code", JStr "x=1");
        ("cursor", JInt 3)].

Definition frame_no_type : json := JObj [("code", JStr "x=1")].

Definition known_frames : list json :=
  [frame_update; frame_no_code; frame_array; frame_code_list; frame_extra;
   frame_no_type].

(** [json.loads] cut down to the texts of [known_frames]; any other text is
    answered like a text that is not JSON. *)
Definition loads (text : string) : option json :=
  snd <$> list_find (λ v, dumps v = text) known_frames.

Definition example_codec : JsonCodec :=
  {| json_loads := loads;
     json_loads_error := λ _, JSONDecodeError;
     json_dumps := dumps |}.

(** Validators that take values of the annotated type only (pydantic's
    strict mode). *)
Definition strict_str (v : json) : option string :=
  match v with
  | JStr s => Some s
  | _ => None
  end.

Definition strict_int (v : json) : option Z :=
  match v with
  | JInt z => Some z
  | _ => None
  end.

Definition strict_validators : FieldValidators :=
  {| validate_str := strict_str;
     validate_int := strict_int;
     validate_str_str := λ _, eq_refl;
     validate_int_int := λ _, eq_refl;
     validate_str_arr := λ _, eq_refl |}.

(** A session that holds no [Room] from an earlier update: what it assigns
    reaches the table. *)
Definition fresh_session : OrmSession :=
  {| flushes_code := λ _ _ _, true |}.

(** A session whose [Room] already holds what is assigned. *)
Definition stale_session : OrmSession :=
  {| flushes_code := λ _ _ _, false |}.

(** A room with three sessions, the second of which has a dead transport. *)
Definition example_world : World :=
  mkWorld {["abcd1234" := [1; 2; 3]]} {["abcd1234" := ""]} true {[2]} [].

(** The server after one client has joined the only room of the table. *)
Definition example_system : System :=
  @run example_codec strict_validators fresh_session
    [ClientConnects 1 "abcd1234"] (@boot {["abcd1234" := ""]}).

(** ** The rest of [room_service], its router and the start of the process *)

(** [db.add(room); db.commit(); db.refresh(room)] for a new row. *)
Definition insert_room (room_id code : string) : M unit :=
  λ w, if db_up w
       then (Ret (), set_rooms (<[room_id := code]> (rooms w)) w)
       else (Raise SQLAlchemyError, w).

(** [while await room_exists(db, room_id): room_id = str(uuid.uuid4())[:8]]
    against the ids the generator yields next.  [None] stands for a loop
    that has used up [draws] and would draw again. *)
Fixpoint fresh_room_id (room_id : string) (draws : list string)
    : M (option string) :=
  found <- room_exists room_id ;;
  if found then
    match draws with
    | [] => ret None
    | next :: rest => fresh_room_id next rest
    end
  else ret (Some room_id).

(** [room_service.create_room], given the ids [uuid4] yields; the row made
    is returned as its [room_id] and [code].  The handler
    [db.rollback(); raise e] leaves the table as it was. *)
Definition create_room (draws : list string) : M (option (string * string)) :=
  match draws with
  | [] => ret None
  | first :: rest =>
      picked <- fresh_room_id first rest ;;
      match picked with
      | None => ret None
      | Some room_id =>
          insert_room room_id "" ;;;
          ret (Some (room_id, ""))
      end
  end.

(** What [POST /rooms] answers: [RoomResponse(roomId=...)] with status 201,
    or the [HTTPException] raised, with its status and the fixed part of
    its detail. *)
Inductive RoomsResponse : Type :=
  | RoomResponse (roomId : string)
  | HTTPException (status_code : nat) (detail : string).

Module rooms_router.

(** [routers/rooms.py], [create_room]. *)
Definition create_room (draws : list string) : M (option RoomsResponse) :=
  try_except
    (room <- create_room draws ;;
     match room with
     | Some (room_id, _) => ret (Some (RoomResponse room_id))
     | None => ret None
     end)
    (λ e, match e with
          | SQLAlchemyError =>
              Some (ret (Some (HTTPException 500 "Failed to create room: ")))
          | _ =>
              Some (ret (Some (HTTPException 500 "Unexpected error: ")))
          end).

End rooms_router.

(** [database.init_db], run by [startup_event]: [drop_all] then
    [create_all] leave the table [rooms] without rows. *)
Definition init_db : M unit :=
  λ w, if db_up w
       then (Ret (), set_rooms ∅ w)
       else (Raise SQLAlchemyError, w).

(** ** What a computation leaves alone *)

(** [m] takes every world to one related to it by [R], however it ends. *)
Definition keeps {A} (R : World → World → Prop) (m : M A) : Prop :=
  ∀ w, R w (snd (m w)).

(** The events an iteration for session [ws] of room [room_id] may add,
    seen from the world [w] it starts in. *)
Definition addressed (room_id : string) (ws : WebSocket) (w : World)
    (e : Event) : Prop :=
  match e with
  | Send p _ _ => p = ws ∨ p ∈ members room_id w
  | StoreUpdate r _ => r = room_id
  | _ => False
  end.

(** What work done for session [ws] of room [room_id] may change. *)
Record frame (room_id : string) (ws : WebSocket) (w w' : World) : Prop := {
  frame_broken : broken w' = broken w;
  frame_db_up : db_up w' = db_up w;
  frame_other_rooms :
    ∀ r, r ≠ room_id → active_connections w' !! r = active_connections w !! r;
  frame_listings :
    ∀ p, occurrences p (members room_id w') ≤ occurrences p (members room_id w);
  frame_no_empty :
    no_empty_room (active_connections w) →
    no_empty_room (active_connections w');
  frame_other_rows : ∀ r, r ≠ room_id → rooms w' !! r = rooms w !! r;
  frame_rows : dom (rooms w') = dom (rooms w);
  frame_trace :
    ∃ evs, trace w' = trace w ++ evs ∧ Forall (addressed room_id ws w) evs
}.

(** Every listed session is served by a suspended coroutine of that room
    and is listed once; no room is listed without a session. *)
Definition sessions_are_tasks (s : System) : Prop :=
  no_empty_room (active_connections (world s))
  ∧ ∀ r p, p ∈ members r (world s) →
           tasks s !! p = Some r ∧ occurrences p (members r (world s)) = 1.

(** ** [autocomplete_service] and its router *)

(** A Python [str] as the sequence of its code points. *)
Abbreviation pystr := (list N).

(** A literal of the source (all of them are ASCII). *)
Fixpoint lit (s : string) : pystr :=
  match s with
  | EmptyString => []
  | String c s' => N_of_ascii c :: lit s'
  end.

(** [str.lower] is left to the Python at hand. *)
Class StrLower : Type := str_lower : pystr → pystr.

Module autocomplete_service.

(** [str.isspace] on one code point. *)
Definition isspace (c : N) : bool :=
  bool_decide
    (c ∈ [9; 10; 11; 12; 13; 28; 29; 30; 31; 32; 133; 160; 5760;
          8192; 8193; 8194; 8195; 8196; 8197; 8198; 8199; 8200; 8201; 8202;
          8232; 8233; 8239; 8287; 12288]%N).

Fixpoint lstrip (s : pystr) : pystr :=
  match s with
  | [] => []
  | c :: s' => if isspace c then lstrip s' else s
  end.

Definition rstrip (s : pystr) : pystr := reverse (lstrip (reverse s)).

Definition strip (s : pystr) : pystr := rstrip (lstrip s).

Fixpoint startswith (prefix s : pystr) : bool :=
  match prefix, s with
  | [], _ => true
  | p :: prefix', c :: s' => bool_decide (p = c) && startswith prefix' s'
  | _ :: _, [] => false
  end.

Definition endswith (suffix s : pystr) : bool :=
  startswith (reverse suffix) (reverse s).

(** [sub in s] *)
Fixpoint contains (sub s : pystr) : bool :=
  startswith sub s
  || match s with
     | [] => false
     | _ :: s' => contains sub s'
     end.

(** [s.split(sep)] for a separator of one character. *)
Fixpoint split (sep : N) (s : pystr) : list pystr :=
  match s with
  | [] => [[]]
  | c :: s' =>
      if bool_decide (c = sep) then [] :: split sep s'
      else match split sep s' with
           | [] => [[c]]
           | l :: ls => (c :: l) :: ls
           end
  end.

(** [s[:stop]]: a negative [stop] counts from the end and is clamped at the
    start. *)
Definition slice_to (s : pystr) (stop : Z) : pystr :=
  if decide (0 ≤ stop)%Z then take (Z.to_nat stop) s
  else take (Z.to_nat (Z.of_nat (length s) + stop)) s.

Definition newline : N := 10%N.

Definition double_quote : N := 34%N.

(** Confidence scores are written in hundredths: the literal [0.85] is 85. *)
Definition _generate_ai_mock_suggestion (language current_line : pystr)
    : pystr * nat :=
  let comment :=
    if decide (language = lit "python") then lit "# AI generated code here"
    else if decide (language ∈ [lit "javascript"; lit "js";
                                lit "typescript"; lit "ts"])
    then lit "// AI generated code here"
    else if decide (language ∈ [lit "html"; lit "xml"])
    then lit "<!-- AI generated code here -->"
    else if decide (language ∈ [lit "css"; lit "scss"; lit "less"])
    then lit "/* AI generated code here */"
    else lit "// AI generated code here" in
  (comment, 85).

Definition _generate_python_suggestion (code_before_cursor current_line : pystr)
    : pystr * nat :=
  if endswith (lit "return") (rstrip current_line)
     && bool_decide (current_line ≠ rstrip current_line)
  then (lit "True", 80)
  else if endswith (lit "return") (strip current_line)
  then (lit " None", 85)
  else if contains (lit "if __name__") current_line
  then (lit " == " ++ [double_quote] ++ lit "__main__" ++ [double_quote]
          ++ lit ":", 95)
  else if startswith (lit "def ") (strip current_line)
          && endswith (lit "):") (strip current_line)
  then ([newline] ++ lit "    pass", 90)
  else if startswith (lit "class ") (strip current_line)
          && endswith (lit ":") (strip current_line)
  then ([newline] ++ lit "    pass", 90)
  else if bool_decide (strip current_line = lit "import")
  then (lit " os", 75)
  else if bool_decide (strip current_line = lit "from")
  then (lit " typing import", 75)
  else if endswith (lit "print(") (strip current_line)
  then ([double_quote] ++ lit "Hello, World!" ++ [double_quote] ++ lit ")", 70)
  else if endswith (lit "for") (rstrip current_line)
  then (lit " i in range(", 80)
  else if endswith (lit "if") (rstrip current_line)
  then (lit " True:", 75)
  else (lit "pass", 60).

Definition _generate_javascript_suggestion
    (code_before_cursor current_line : pystr) : pystr * nat :=
  if endswith (lit "console.") (strip current_line)
  then (lit "log()", 95)
  else if endswith (lit "console.log(") (strip current_line)
  then ([double_quote] ++ lit "Hello, World!" ++ [double_quote] ++ lit ")", 85)
  else if startswith (lit "function ") (strip current_line)
          && endswith (lit ")") (strip current_line)
  then (lit " {" ++ [newline] ++ lit "    " ++ [newline] ++ lit "}", 90)
  else if endswith (lit "=>") (strip current_line)
  then (lit " {" ++ [newline] ++ lit "    " ++ [newline] ++ lit "}", 90)
  else if bool_decide (strip current_line = lit "const")
  then (lit " value = ", 80)
  else if bool_decide (strip current_line = lit "let")
  then (lit " value = ", 80)
  else if bool_decide (strip current_line = lit "var")
  then (lit " value = ", 75)
  else if endswith (lit "return") (strip current_line)
  then (lit " null;", 80)
  else if endswith (lit "return ") (strip current_line)
  then (lit "true;", 75)
  else if endswith (lit "if (") (strip current_line)
  then (lit "true) {" ++ [newline] ++ lit "    " ++ [newline] ++ lit "}", 80)
  else if endswith (lit "for (") (strip current_line)
  then (lit "let i = 0; i < 10; i++) {" ++ [newline] ++ lit "    "
          ++ [newline] ++ lit "}", 85)
  else (lit ";", 60).

Definition _generate_generic_suggestion (current_line : pystr) : pystr * nat :=
  if bool_decide (strip current_line = lit "")
  then (lit "// TODO: ", 50)
  else if endswith (lit "=") (strip current_line)
  then (lit " ", 40)
  else (lit "", 30).

Section Suggest.
Context `{StrLower}.

Definition generate_suggestion (code : pystr) (cursor_position : Z)
    (language : pystr) : pystr * nat :=
  let lang := str_lower language in
  let code_before_cursor :=
    if decide (cursor_position ≤ Z.of_nat (length code))%Z
    then slice_to code cursor_position else code in
  let lines := split newline code_before_cursor in
  let current_line := last lines in
  let current_line := default (lit "") current_line in
  if bool_decide (0 < length (strip current_line))
     && negb (startswith (lit "//") (strip current_line))
  then _generate_ai_mock_suggestion lang current_line
  else if decide (lang = lit "python")
  then _generate_python_suggestion code_before_cursor current_line
  else if decide (lang ∈ [lit "javascript"; lit "js"])
  then _generate_javascript_suggestion code_before_cursor current_line
  else _generate_generic_suggestion current_line.

End Suggest.

End autocomplete_service.

(** The line [generate_suggestion] looks at: what stands between the last
    line break before the cursor and the cursor. *)
Definition line_at_cursor (code : pystr) (cursor_position : Z) : pystr :=
  default (lit "")
    (last (autocomplete_service.split autocomplete_service.newline
             (if decide (cursor_position ≤ Z.of_nat (length code))%Z
              then autocomplete_service.slice_to code cursor_position
              else code))).

(** The cursor position [generate_suggestion] works with in the end. *)
Definition effective_cursor (code : pystr) (cursor_position : Z) : Z :=
  if decide (cursor_position < 0)%Z
  then Z.max 0 (Z.of_nat (length code) + cursor_position)
  else Z.min cursor_position (Z.of_nat (length code)).

(** The request model, as FastAPI hands it to the route once validated. *)
Record AutocompleteRequest : Type := mkAutocompleteRequest {
  request_code : pystr;
  cursorPosition : Z;
  language : pystr
}.

(** What [POST /autocomplete] answers. *)
Inductive AutocompleteAnswer : Type :=
  | AutocompleteResponse (suggestion : pystr) (confidence : nat)
  | AutocompleteHTTPException (status_code : nat) (detail : string).

Module autocomplete_router.

(** The constructor of [AutocompleteResponse]: [confidence] is declared
    with [ge=0.0, le=1.0]; [None] stands for the [ValidationError]. *)
Definition AutocompleteResponse_init (suggestion : pystr) (confidence : nat)
    : option AutocompleteAnswer :=
  if decide (0 ≤ confidence ∧ confidence ≤ 100)
  then Some (AutocompleteResponse suggestion confidence)
  else None.

(** [get_autocomplete_suggestion]: the service raises nothing, so of the
    two handlers only the one for [ValidationError] has a part to play. *)
Definition get_autocomplete_suggestion `{StrLower}
    (request : AutocompleteRequest) : AutocompleteAnswer :=
  let '(suggestion, confidence) :=
    autocomplete_service.generate_suggestion
      (request_code request) (cursorPosition request) (language request) in
  match AutocompleteResponse_init suggestion confidence with
  | Some response => response
  | None => AutocompleteHTTPException 400 "Invalid request payload: "
  end.

End autocomplete_router.

(** [str.lower] on ASCII letters, to run the service on ASCII input. *)
Definition ascii_lower : StrLower :=
  fmap (λ c, if decide (65 ≤ c ∧ c ≤ 90)%N then (c + 32)%N else c).

(** Two more payloads, and a decoder that knows them too. *)
Definition frame_ping : json := JObj [("type", JStr "ping")].

Definition frame_null_code : json :=
  JObj [("type", JStr "code_update"); ("code", JNull)].

Definition loads_more (text : string) : option json :=
  snd <$> list_find (λ v, dumps v = text)
            (known_frames ++ [frame_ping; frame_null_code]).

Definition wider_codec : JsonCodec :=
  {| json_loads := loads_more;
     json_loads_error := λ _, JSONDecodeError;
     json_dumps := dumps |}.

(** Validators as pydantic runs them by default (lax mode), as far as the
    examples go: an [int] field also takes a string of decimal digits. *)
Fixpoint digits_value (acc : Z) (s : string) : option Z :=
  match s with
  | EmptyString => Some acc
  | String c s' =>
      let n := nat_of_ascii c in
      if decide (48 ≤ n ∧ n ≤ 57)
      then digits_value (10 * acc + Z.of_nat (n - 48)) s'
      else None
  end.

Definition lax_int (v : json) : option Z :=
  match v with
  | JInt z => Some z
  | JStr (String c s) => digits_value 0 (String c s)
  | _ => None
  end.

Definition lax_validators : FieldValidators :=
  {| validate_str := strict_str;
     validate_int := lax_int;
     validate_str_str := λ _, eq_refl;
     validate_int_int := λ _, eq_refl;
     validate_str_arr := λ _, eq_refl |}.

(** An update whose [timestamp] is the string "42". *)
Definition frame_string_timestamp : json :=
  JObj [("type", JStr "code_update"); ("code", JStr "x=1");
        ("timestamp", JStr "42")].

(** An integer literal of 4301 digits, one more than [json.loads] converts
    on an interpreter with the default digit limit. *)
Fixpoint nines (n : nat) : string :=
  match n with
  | 0 => EmptyString
  | S n' => String "9" (nines n')
  end.

Definition beyond_digit_limit : string := nines 4301.

Definition loads_most (text : string) : option json :=
  snd <$> list_find (λ v, dumps v = text)
            (known_frames
             ++ [frame_ping; frame_null_code; frame_string_timestamp]).

(** A decoder that also knows [frame_string_timestamp] and raises
    [ValueError] on [beyond_digit_limit]. *)
Definition codec_with_limits : JsonCodec :=
  {| json_loads := loads_most;
     json_loads_error :=
       λ text, if decide (text = beyond_digit_limit)
               then ValueError else JSONDecodeError;
     json_dumps := dumps |}.

(** * Properties *)

(** ** Lists of sessions *)

Lemma list_remove_absent x l : x ∉ l → list_remove x l = l.
Proof.
  induction l as [|y l IH]; intros Hx; simpl; [done|].
  apply not_elem_of_cons in Hx as [Hne Hx].
  destruct (decide (x = y)); [done|]. by rewrite IH.
Qed.

Lemma occurrences_zero x l : occurrences x l = 0 ↔ x ∉ l.
Proof.
  induction l as [|y l IH]; simpl.
  - split; [intros _; apply not_elem_of_nil | done].
  - rewrite not_elem_of_cons. destruct (decide (x = y)); simpl.
    + split; [lia | intros [? _]; done].
    + rewrite IH. tauto.
Qed.

Lemma occurrences_app x l1 l2 :
  occurrences x (l1 ++ l2) = occurrences x l1 + occurrences x l2.
Proof. induction l1 as [|y l1 IH]; simpl; [done|]. rewrite IH. lia. Qed.

Lemma occurrences_remove x y l :
  occurrences x (list_remove y l)
  = occurrences x l - (if decide (x = y) then 1 else 0).
Proof.
  induction l as [|z l IH]; simpl; [done|].
  destruct (decide (y = z)) as [->|Hyz]; simpl.
  - destruct (decide (x = z)); lia.
  - rewrite IH. destruct (decide (x = z)) as [->|]; simpl; [|done].
    destruct (decide (z = y)); [congruence | lia].
Qed.

Lemma occurrences_remove_all x l dw :
  occurrences x (foldl (λ l ws, list_remove ws l) l dw)
  = occurrences x l - occurrences x dw.
Proof.
  revert l. induction dw as [|y dw IH]; intros l; simpl; [lia|].
  rewrite IH, occurrences_remove. destruct (decide (x = y)); lia.
Qed.

(** ** The dictionary updates *)

Lemma registry_add_eq r ws ac :
  registry_add r ws ac = <[r := default [] (ac !! r) ++ [ws]]> ac.
Proof.
  unfold registry_add. destruct (decide (r ∈ dom ac)) as [Hin|Hout]; [done|].
  apply not_elem_of_dom in Hout. rewrite lookup_insert_eq, Hout. simpl.
  by rewrite insert_insert_eq.
Qed.

Lemma registry_add_lookup r ws ac :
  registry_add r ws ac !! r = Some (default [] (ac !! r) ++ [ws]).
Proof. by rewrite registry_add_eq, lookup_insert_eq. Qed.

Lemma registry_add_lookup_ne r r' ws ac :
  r ≠ r' → registry_add r ws ac !! r' = ac !! r'.
Proof. intros. by rewrite registry_add_eq, lookup_insert_ne. Qed.

Lemma registry_remove_lookup_ne r r' ws ac :
  r ≠ r' → registry_remove r ws ac !! r' = ac !! r'.
Proof.
  intros Hne. unfold registry_remove. destruct (ac !! r) as [conns|]; [|done].
  case_decide; by rewrite ?lookup_delete_ne, lookup_insert_ne.
Qed.

(** After [disconnect] the room lists what [list.remove] leaves, and has no
    entry when that is nothing. *)
Lemma registry_remove_lookup r ws ac :
  registry_remove r ws ac !! r
  = match ac !! r with
    | None => None
    | Some conns =>
        if decide (list_remove ws conns = [])
        then None else Some (list_remove ws conns)
    end.
Proof.
  unfold registry_remove. destruct (ac !! r) as [conns|] eqn:Hr; [|done].
  assert ((if decide (ws ∈ conns) then list_remove ws conns else conns)
          = list_remove ws conns) as ->.
  { case_decide; [done|]. by rewrite list_remove_absent. }
  destruct (list_remove ws conns) as [|c l] eqn:Hl.
  - rewrite !decide_True by done. by rewrite lookup_delete_eq.
  - rewrite !decide_False by done. by rewrite lookup_insert_eq.
Qed.

Lemma registry_remove_default r ws ac :
  default [] (registry_remove r ws ac !! r)
  = list_remove ws (default [] (ac !! r)).
Proof.
  rewrite registry_remove_lookup. destruct (ac !! r) as [conns|]; [|done].
  case_decide as Hl; simpl; [by rewrite Hl | done].
Qed.

Lemma registry_add_no_empty r ws ac :
  no_empty_room ac → no_empty_room (registry_add r ws ac).
Proof.
  intros Hinv r' conns. destruct (decide (r = r')) as [<-|Hne].
  - rewrite registry_add_lookup. intros [= <-]. by destruct (default [] _).
  - rewrite registry_add_lookup_ne by done. apply Hinv.
Qed.

Lemma registry_remove_no_empty r ws ac :
  no_empty_room ac → no_empty_room (registry_remove r ws ac).
Proof.
  intros Hinv r' conns. destruct (decide (r = r')) as [<-|Hne].
  - rewrite registry_remove_lookup. destruct (ac !! r); [|done].
    case_decide; [done|]. by intros [= <-].
  - rewrite registry_remove_lookup_ne by done. apply Hinv.
Qed.

(** ** Running the manager's methods *)

Lemma logs_nil w : logs [] w = w.
Proof. destruct w. unfold logs. simpl. by rewrite app_nil_r. Qed.

Lemma logs_logs evs1 evs2 w : logs evs2 (logs evs1 w) = logs (evs1 ++ evs2) w.
Proof. unfold logs. simpl. by rewrite app_assoc. Qed.

Lemma log_logs e w : log e w = logs [e] w.
Proof. done. Qed.

Lemma set_connections_same w : set_connections (active_connections w) w = w.
Proof. by destruct w. Qed.

Lemma connect_run r ws w :
  connect r ws w
  = if decide (ws ∈ broken w)
    then (Raise RuntimeError, w)
    else (Ret (),
          set_connections (registry_add r ws (active_connections w))
            (log (Accept ws) w)).
Proof. unfold connect, bind, accept. by case_decide. Qed.

Lemma disconnect_run r ws w :
  disconnect r ws w
  = (Ret (), set_connections (registry_remove r ws (active_connections w)) w).
Proof. done. Qed.

Section ManagerRuns.
Context `{JsonCodec}.

Lemma send_each_run text ex conns dw w :
  send_each text ex conns dw w
  = (Ret (dw ++ failed_sends ex (broken w) conns),
     logs (send_events text ex (broken w) conns) w).
Proof.
  revert dw w. induction conns as [|c conns IH]; intros dw w.
  - simpl. unfold ret, failed_sends, send_events, recipients. simpl.
    by rewrite app_nil_r, logs_nil.
  - cbn [send_each]. unfold failed_sends, send_events, recipients in *.
    rewrite filter_cons.
    destruct (decide (Some c ≠ ex)) as [Hne|Heq].
    + unfold bind at 1. unfold try_except, bind, send_text, except_Exception, ret.
      rewrite fmap_cons, filter_cons.
      destruct (decide (c ∈ broken w)) as [Hbk|Hok]; rewrite IH; cbn [broken log].
      * rewrite bool_decide_false by (by intros ?).
        by rewrite log_logs, logs_logs, <- app_assoc.
      * rewrite bool_decide_true by done.
        by rewrite log_logs, logs_logs.
    + unfold bind, ret. by rewrite IH.
Qed.

Lemma disconnect_each_run r dw w :
  disconnect_each r dw w
  = (Ret (),
     set_connections
       (foldl (λ ac ws, registry_remove r ws ac) (active_connections w) dw) w).
Proof.
  revert w. induction dw as [|ws dw IH]; intros w; simpl.
  - unfold ret. by rewrite set_connections_same.
  - unfold bind. rewrite disconnect_run, IH. done.
Qed.

Lemma broadcast_run r msg ex w :
  broadcast r msg ex w
  = match active_connections w !! r with
    | None => (Ret (), w)
    | Some conns =>
        (Ret (),
         set_connections
           (foldl (λ ac ws, registry_remove r ws ac) (active_connections w)
              (failed_sends ex (broken w) conns))
           (logs (send_events (json_dumps msg) ex (broken w) conns) w))
    end.
Proof.
  unfold broadcast, bind, get. simpl.
  destruct (active_connections w !! r) as [conns|]; [|done].
  by rewrite send_each_run, disconnect_each_run.
Qed.

End ManagerRuns.

Lemma remove_each_default r dw ac :
  default [] (foldl (λ ac ws, registry_remove r ws ac) ac dw !! r)
  = foldl (λ l ws, list_remove ws l) (default [] (ac !! r)) dw.
Proof.
  revert ac. induction dw as [|ws dw IH]; intros ac; simpl; [done|].
  by rewrite IH, registry_remove_default.
Qed.

Lemma remove_each_lookup_ne r r' dw ac :
  r ≠ r' → foldl (λ ac ws, registry_remove r ws ac) ac dw !! r' = ac !! r'.
Proof.
  intros Hne. revert ac. induction dw as [|ws dw IH]; intros ac; simpl; [done|].
  by rewrite IH, registry_remove_lookup_ne.
Qed.

Lemma remove_each_no_empty r dw ac :
  no_empty_room ac →
  no_empty_room (foldl (λ ac ws, registry_remove r ws ac) ac dw).
Proof.
  revert ac. induction dw as [|ws dw IH]; intros ac Hinv; simpl; [done|].
  by apply IH, registry_remove_no_empty.
Qed.

Lemma occurrences_failed_sends k ex bk conns :
  Some k ≠ ex → k ∈ bk →
  occurrences k (failed_sends ex bk conns) = occurrences k conns.
Proof.
  intros Hne Hbk. unfold failed_sends, recipients.
  induction conns as [|c conns IH]; [done|].
  rewrite filter_cons. cbn [occurrences].
  destruct (decide (k = c)) as [<-|Hkc].
  - rewrite decide_True by done. rewrite filter_cons, decide_True by done.
    cbn [occurrences]. rewrite decide_True by done. by rewrite IH.
  - destruct (decide (Some c ≠ ex)); [|done].
    rewrite filter_cons. destruct (decide (c ∈ bk)); [|done].
    cbn [occurrences]. rewrite decide_False by done. by rewrite IH.
Qed.

(** ** The registry invariant *)

Lemma registry_remove_dom r ws ac : dom (registry_remove r ws ac) ⊆ dom ac.
Proof.
  intros r' Hr'. apply elem_of_dom in Hr'. apply elem_of_dom.
  destruct (decide (r = r')) as [<-|Hne].
  - rewrite registry_remove_lookup in Hr'.
    destruct (ac !! r); [done|]. by destruct Hr'.
  - by rewrite registry_remove_lookup_ne in Hr'.
Qed.

Lemma remove_each_dom r dw ac :
  dom (foldl (λ ac ws, registry_remove r ws ac) ac dw) ⊆ dom ac.
Proof.
  induction dw as [|ws dw IH] using rev_ind; [done|].
  rewrite foldl_app. simpl. etrans; [apply registry_remove_dom | done].
Qed.

Section Invariant.
Context `{JsonCodec}.

Lemma call_no_empty c w :
  no_empty_room (active_connections w) →
  no_empty_room (active_connections (call c w)).
Proof.
  intros Hinv. destruct c as [r ws|r ws|r msg ex|bk]; cbn [call].
  - rewrite connect_run. case_decide; [done|].
    by apply registry_add_no_empty.
  - rewrite disconnect_run. by apply registry_remove_no_empty.
  - rewrite broadcast_run. destruct (active_connections w !! r); [|done].
    by apply remove_each_no_empty.
  - done.
Qed.

Lemma run_calls_no_empty cs w :
  no_empty_room (active_connections w) →
  no_empty_room (active_connections (run_calls cs w)).
Proof.
  revert w. induction cs as [|c cs IH]; intros w Hinv; [done|].
  apply IH. by apply call_no_empty.
Qed.

(** After any calls on a fresh manager, a room is a key exactly when some
    session is registered for it. *)
Lemma listed_iff_registered rs up bk cs room_id :
  room_id ∈ dom (active_connections (run_calls cs (new_manager rs up bk)))
  ↔ ∃ ws, ws ∈ members room_id (run_calls cs (new_manager rs up bk)).
Proof.
  assert (no_empty_room
            (active_connections (run_calls cs (new_manager rs up bk))))
    as Hinv.
  { apply run_calls_no_empty. intros r conns. simpl.
    by rewrite lookup_empty. }
  unfold members. rewrite elem_of_dom. split.
  - intros [conns Hconns]. rewrite Hconns. simpl.
    destruct conns as [|ws conns]; [by apply Hinv in Hconns|].
    exists ws. apply list_elem_of_here.
  - intros [ws Hws].
    destruct (active_connections _ !! room_id); [done|].
    simpl in Hws. by apply not_elem_of_nil in Hws.
Qed.

(** Only [connect] makes an entry. *)
Lemma call_dom c w :
  (∀ r p, c ≠ CallConnect r p) →
  dom (active_connections (call c w)) ⊆ dom (active_connections w).
Proof.
  intros Hc. destruct c as [r ws|r ws|r msg ex|bk]; cbn [call].
  - by destruct (Hc r ws).
  - rewrite disconnect_run. apply registry_remove_dom.
  - rewrite broadcast_run. destruct (active_connections w !! r); [|done].
    apply remove_each_dom.
  - done.
Qed.

(** C1.  Let [w] be the manager after any calls to [connect], [disconnect]
    and [broadcast] on a fresh one, the transports doing what they like in
    between.  A room is a key of [active_connections] exactly when some
    session is registered for it.  The dictionary starts empty and an entry
    is made by [connect] only: an accepted [connect] leaves the room listed
    with the session added at the end of its list, so a room without entry
    gets the entry [[ws]], and no other call adds a key.  [disconnect]
    deletes the entry when the removal leaves no session, and otherwise
    leaves the room listed with the remaining sessions; so [connect]
    followed by [disconnect] of the only session of a room gives back the
    dictionary without the room. *)
Theorem registry_lists_exactly_the_occupied_rooms
    (rs : gmap string string) (up : bool) (bk : gset WebSocket)
    (cs : list ManagerCall) (room_id : string) (ws : WebSocket) :
  let w := run_calls cs (new_manager rs up bk) in
  (room_id ∈ dom (active_connections w) ↔ ∃ p, p ∈ members room_id w)
  ∧ active_connections (new_manager rs up bk) = ∅
  ∧ (ws ∉ broken w →
     active_connections (call (CallConnect room_id ws) w) !! room_id
     = Some (members room_id w ++ [ws]))
  ∧ (ws ∉ broken w → room_id ∉ dom (active_connections w) →
     active_connections (call (CallConnect room_id ws) w) !! room_id
     = Some [ws])
  ∧ (∀ c, (∀ r p, c ≠ CallConnect r p) →
          dom (active_connections (call c w)) ⊆ dom (active_connections w))
  ∧ (list_remove ws (members room_id w) = [] →
     active_connections (call (CallDisconnect room_id ws) w) !! room_id
     = None)
  ∧ (list_remove ws (members room_id w) ≠ [] →
     active_connections (call (CallDisconnect room_id ws) w) !! room_id
     = Some (list_remove ws (members room_id w)))
  ∧ (ws ∉ broken w → room_id ∉ dom (active_connections w) →
     active_connections
       (call (CallDisconnect room_id ws) (call (CallConnect room_id ws) w))
     = active_connections w).
Proof.
  intros w.
  assert (ws ∉ broken w →
          active_connections (call (CallConnect room_id ws) w) !! room_id
          = Some (members room_id w ++ [ws])) as Hconnect.
  { intros Hok. cbn [call]. rewrite connect_run, decide_False by done.
    simpl. by rewrite registry_add_lookup. }
  assert (active_connections (call (CallDisconnect room_id ws) w) !! room_id
          = if decide (list_remove ws (members room_id w) = [])
            then None else Some (list_remove ws (members room_id w)))
    as Hdisconnect.
  { cbn [call]. rewrite disconnect_run. simpl.
    rewrite registry_remove_lookup. unfold members.
    destruct (active_connections w !! room_id) as [conns|]; [done|].
    cbn [default list_remove]. by case_decide. }
  split; [apply listed_iff_registered|]. split; [done|].
  split; [done|]. split.
  { intros Hok Hnew. rewrite Hconnect by done.
    apply not_elem_of_dom in Hnew. unfold members. by rewrite Hnew. }
  split; [intros c; apply call_dom|]. split.
  { intros Hlast. by rewrite Hdisconnect, decide_True. }
  split.
  { intros Hmore. by rewrite Hdisconnect, decide_False. }
  intros Hok Hnew. apply not_elem_of_dom in Hnew.
  cbn [call]. rewrite connect_run, decide_False by done.
  rewrite disconnect_run. simpl. apply map_eq. intros r.
  destruct (decide (room_id = r)) as [<-|Hne].
  - rewrite registry_remove_lookup, registry_add_lookup, Hnew.
    cbn [default app list_remove].
    rewrite (decide_True (P := ws = ws)) by done. by rewrite decide_True.
  - by rewrite registry_remove_lookup_ne, registry_add_lookup_ne.
Qed.

End Invariant.

(** [connect] makes the entry of a room that has none, with the session as
    its only member. *)
Lemma connect_creates_entry w room_id ws :
  active_connections w !! room_id = None → ws ∉ broken w →
  active_connections (snd (connect room_id ws w)) !! room_id = Some [ws].
Proof.
  intros Hr Hok. rewrite connect_run, decide_False by done. simpl.
  by rewrite registry_add_lookup, Hr.
Qed.

(** [connect] followed by [disconnect] of the only session of a room leaves
    the dictionary as it was before the room was entered. *)
Lemma connect_disconnect_only_session w room_id ws :
  active_connections w !! room_id = None → ws ∉ broken w →
  active_connections (snd (disconnect room_id ws (snd (connect room_id ws w))))
  = active_connections w.
Proof.
  intros Hr Hok. rewrite connect_run, decide_False by done.
  rewrite disconnect_run. simpl. apply map_eq. intros r.
  destruct (decide (room_id = r)) as [<-|Hne].
  - rewrite registry_remove_lookup, registry_add_lookup, Hr.
    cbn [default app list_remove].
    rewrite (decide_True (P := ws = ws)) by done. by rewrite decide_True.
  - by rewrite registry_remove_lookup_ne, registry_add_lookup_ne.
Qed.

(** ** Disconnecting *)

(** In a dictionary without empty lists, [disconnect] of a session the room
    does not list changes nothing and raises nothing. *)
Lemma disconnect_absent w room_id ws :
  no_empty_room (active_connections w) →
  ws ∉ members room_id w →
  disconnect room_id ws w = (Ret (), w).
Proof.
  intros Hinv Hws. rewrite disconnect_run.
  assert (registry_remove room_id ws (active_connections w)
          = active_connections w) as ->; [|by rewrite set_connections_same].
  unfold registry_remove, members in *.
  destruct (active_connections w !! room_id) as [conns|] eqn:Hr; [|done].
  simpl in Hws. rewrite (decide_False (P := ws ∈ conns)) by done.
  rewrite decide_False.
  - by apply insert_id.
  - apply Hinv in Hr. by destruct conns.
Qed.

Lemma members_disconnect w room_id ws :
  members room_id (snd (disconnect room_id ws w))
  = list_remove ws (members room_id w).
Proof. rewrite disconnect_run. apply registry_remove_default. Qed.

(** C8, as the code has it.  In a dictionary without empty lists (every
    dictionary the manager reaches), [disconnect] of a session the room does
    not list leaves the dictionary as it is and raises nothing; so for a
    session listed at most once, a second [disconnect] changes nothing after
    the first; and a removal that leaves the room without session deletes
    the room's entry. *)
Theorem disconnect_idempotent_for_single_listing
    (w : World) (room_id : string) (ws : WebSocket) :
  no_empty_room (active_connections w) →
  (ws ∉ members room_id w → disconnect room_id ws w = (Ret (), w))
  ∧ (occurrences ws (members room_id w) ≤ 1 →
     disconnect room_id ws (snd (disconnect room_id ws w))
     = (Ret (), snd (disconnect room_id ws w)))
  ∧ (list_remove ws (members room_id w) = [] →
     active_connections (snd (disconnect room_id ws w)) !! room_id = None).
Proof.
  intros Hinv. split; [|split].
  - by apply disconnect_absent.
  - intros Hocc. apply disconnect_absent.
    + rewrite disconnect_run. by apply registry_remove_no_empty.
    + apply occurrences_zero.
      rewrite members_disconnect, occurrences_remove, decide_True by done.
      lia.
  - intros Hempty. rewrite disconnect_run. simpl.
    rewrite registry_remove_lookup. unfold members in Hempty.
    destruct (active_connections w !! room_id) as [conns|]; [|done].
    simpl in Hempty. by rewrite decide_True.
Qed.

(** Session 2 leaves a room it shares with session 1, twice; session 1 then
    leaves as the last one; session 3 was never there. *)
Lemma disconnect_idempotent_for_single_listing_witness :
  let w := mkWorld {["room" := [1; 2]]} ∅ true ∅ [] in
  let once := snd (disconnect "room" 2 w) in
  disconnect "room" 3 w = (Ret (), w)
  ∧ disconnect "room" 2 once = (Ret (), once)
  ∧ active_connections (snd (disconnect "room" 1 once)) !! "room" = None.
Proof.
  intros w once.
  destruct (disconnect_idempotent_for_single_listing w "room" 3)
    as (Habsent & _ & _); [compute_done|].
  destruct (disconnect_idempotent_for_single_listing w "room" 2)
    as (_ & Htwice & _); [compute_done|].
  destruct (disconnect_idempotent_for_single_listing once "room" 1)
    as (_ & _ & Hlast); [compute_done|].
  split; [apply Habsent; compute_done|].
  split; [apply Htwice; vm_compute; lia|].
  apply Hlast. compute_done.
Defined.

(** C8, as stated, fails on a session listed twice: after two calls to
    [connect] for the same session the first [disconnect] leaves the session
    listed once and the second one deletes the room. *)
Lemma disconnect_twice_differs_from_once :
  let w := snd (connect "room" 1 (snd (connect "room" 1 (new_manager ∅ true ∅)))) in
  let once := snd (disconnect "room" 1 w) in
  let twice := snd (disconnect "room" 1 once) in
  no_empty_room (active_connections w)
  ∧ active_connections once = {["room" := [1]]}
  ∧ active_connections twice = ∅
  ∧ active_connections twice ≠ active_connections once.
Proof.
  cbv zeta. split; [compute_done|]. split; [compute_done|].
  split; [compute_done|]. compute_done.
Qed.

(** ** Connecting twice *)

(** C9.  [connect] for a session the room already lists appends a further
    listing (the transport accepting again); the session is then listed one
    more time than before, so at least twice, and one [disconnect] takes away
    a single listing: the session is still registered and the room still has
    its entry. *)
Theorem connect_twice_lists_session_twice
    (w : World) (room_id : string) (ws : WebSocket) :
  ws ∈ members room_id w →
  ws ∉ broken w →
  let w1 := snd (connect room_id ws w) in
  let w2 := snd (disconnect room_id ws w1) in
  connect room_id ws w = (Ret (), w1)
  ∧ members room_id w1 = members room_id w ++ [ws]
  ∧ occurrences ws (members room_id w1) = S (occurrences ws (members room_id w))
  ∧ 2 ≤ occurrences ws (members room_id w1)
  ∧ occurrences ws (members room_id w2) = occurrences ws (members room_id w)
  ∧ ws ∈ members room_id w2
  ∧ room_id ∈ dom (active_connections w2).
Proof.
  intros Hin Hok w1 w2.
  assert (occurrences ws (members room_id w) ≠ 0) as Hpos.
  { rewrite occurrences_zero. by intros Hout. }
  assert (members room_id w1 = members room_id w ++ [ws]) as Hw1.
  { unfold w1, members. rewrite connect_run, decide_False by done. simpl.
    by rewrite registry_add_lookup. }
  assert (occurrences ws (members room_id w1)
          = S (occurrences ws (members room_id w))) as Hocc1.
  { rewrite Hw1, occurrences_app. simpl. rewrite decide_True by done. lia. }
  assert (occurrences ws (members room_id w2)
          = occurrences ws (members room_id w)) as Hocc2.
  { unfold w2. rewrite members_disconnect, occurrences_remove.
    rewrite decide_True by done. lia. }
  assert (ws ∈ members room_id w2) as Hin2.
  { destruct (decide (ws ∈ members room_id w2)) as [|Hout]; [done|].
    apply occurrences_zero in Hout. lia. }
  split; [|split; [|split; [|split; [|split; [|split]]]]]; try done.
  - unfold w1. by rewrite connect_run, decide_False.
  - lia.
  - apply elem_of_dom. unfold members in Hin2.
    destruct (active_connections w2 !! room_id); [done|].
    simpl in Hin2. by apply not_elem_of_nil in Hin2.
Qed.

Lemma connect_twice_lists_session_twice_witness :
  let w := snd (connect "room" 1 (new_manager ∅ true ∅)) in
  let w1 := snd (connect "room" 1 w) in
  let w2 := snd (disconnect "room" 1 w1) in
  connect "room" 1 w = (Ret (), w1)
  ∧ members "room" w1 = members "room" w ++ [1]
  ∧ occurrences 1 (members "room" w1) = S (occurrences 1 (members "room" w))
  ∧ 2 ≤ occurrences 1 (members "room" w1)
  ∧ occurrences 1 (members "room" w2) = occurrences 1 (members "room" w)
  ∧ 1 ∈ members "room" w2
  ∧ "room" ∈ dom (active_connections w2).
Proof.
  intros w.
  apply (connect_twice_lists_session_twice w "room" 1); compute_done.
Defined.

(** ** Broadcasting *)

Section Broadcast.
Context `{JsonCodec}.

Lemma broadcast_trace room_id msg ex w conns :
  active_connections w !! room_id = Some conns →
  trace (snd (broadcast room_id msg ex w))
  = trace w ++ send_events (json_dumps msg) ex (broken w) conns.
Proof. intros Hr. by rewrite broadcast_run, Hr. Qed.

Lemma broadcast_members room_id msg ex w conns :
  active_connections w !! room_id = Some conns →
  members room_id (snd (broadcast room_id msg ex w))
  = foldl (λ l ws, list_remove ws l) conns (failed_sends ex (broken w) conns).
Proof.
  intros Hr. rewrite broadcast_run, Hr. unfold members. simpl.
  by rewrite remove_each_default, Hr.
Qed.

Lemma send_events_delivered text ex bk conns j :
  j ∈ conns → Some j ≠ ex → j ∉ bk →
  Send j text true ∈ send_events text ex bk conns.
Proof.
  intros Hj Hne Hok. unfold send_events, recipients.
  apply list_elem_of_fmap. exists j. split.
  - by rewrite bool_decide_true.
  - by apply list_elem_of_filter.
Qed.

Lemma send_events_failed text ex bk conns k :
  k ∈ conns → Some k ≠ ex → k ∈ bk →
  Send k text false ∈ send_events text ex bk conns.
Proof.
  intros Hk Hne Hbk. unfold send_events, recipients.
  apply list_elem_of_fmap. exists k. split.
  - rewrite bool_decide_false; [done | by intros ?].
  - by apply list_elem_of_filter.
Qed.

Lemma send_events_target text ex bk conns ws text' ok :
  Send ws text' ok ∈ send_events text ex bk conns →
  ws ∈ conns ∧ Some ws ≠ ex ∧ text' = text.
Proof.
  unfold send_events, recipients. intros Hin.
  apply list_elem_of_fmap in Hin as (c & Heq & Hc).
  injection Heq as -> -> _. apply list_elem_of_filter in Hc as [? ?]. done.
Qed.

(** C2.  When the send to a listed, non-excluded session [k] raises,
    [broadcast] still returns normally, has tried [k], has delivered the
    serialized message to every other listed, non-excluded session whose
    own send does not raise, and no longer lists [k] in the room. *)
Theorem broadcast_isolates_failed_send
    (w : World) (room_id : string) (msg : json) (exclude : option WebSocket)
    (conns : list WebSocket) (k : WebSocket) :
  active_connections w !! room_id = Some conns →
  k ∈ conns →
  Some k ≠ exclude →
  k ∈ broken w →
  ∃ w' evs,
    broadcast room_id msg exclude w = (Ret (), w')
    ∧ trace w' = trace w ++ evs
    ∧ Send k (json_dumps msg) false ∈ evs
    ∧ (∀ j, j ∈ conns → j ≠ k → Some j ≠ exclude → j ∉ broken w →
            Send j (json_dumps msg) true ∈ evs)
    ∧ k ∉ members room_id w'.
Proof.
  intros Hr Hk Hne Hbk.
  exists (snd (broadcast room_id msg exclude w)),
         (send_events (json_dumps msg) exclude (broken w) conns).
  split; [|split; [|split; [|split]]].
  - rewrite broadcast_run, Hr. done.
  - by apply broadcast_trace.
  - by apply send_events_failed.
  - intros j Hj _ Hjne Hjok. by apply send_events_delivered.
  - apply occurrences_zero.
    rewrite (broadcast_members _ _ _ _ conns) by done.
    rewrite occurrences_remove_all, occurrences_failed_sends by done. lia.
Qed.

(** C4.  Whatever the room lists and whichever sends raise, [broadcast]
    makes no call to [send_text] on the excluded session. *)
Theorem broadcast_never_sends_to_excluded
    (w : World) (room_id : string) (msg : json) (excluded : WebSocket) :
  ∃ evs,
    trace (snd (broadcast room_id msg (Some excluded) w)) = trace w ++ evs
    ∧ ∀ text ok, Send excluded text ok ∉ evs.
Proof.
  rewrite broadcast_run.
  destruct (active_connections w !! room_id) as [conns|].
  - exists (send_events (json_dumps msg) (Some excluded) (broken w) conns).
    split; [done|]. intros text ok Hin.
    apply send_events_target in Hin as (_ & Hne & _). done.
  - exists []. split; [by rewrite app_nil_r|].
    intros text ok. apply not_elem_of_nil.
Qed.

End Broadcast.


(** ** The store *)

Lemma update_room_code_run `{OrmSession} room_id c w :
  update_room_code room_id c w
  = if db_up w
    then match rooms w !! room_id with
         | Some stored =>
             let written :=
               if flushes_code (log (StoreUpdate room_id c) w) room_id c
               then c else stored in
             (Ret (Some written),
              set_rooms (<[room_id := written]> (rooms w))
                (log (StoreUpdate room_id c) w))
         | None => (Ret None, log (StoreUpdate room_id c) w)
         end
    else (Raise SQLAlchemyError, log (StoreUpdate room_id c) w).
Proof.
  unfold update_room_code, bind, modify, get_room, select_room, commit_code,
    get, ret.
  simpl. destruct (db_up w) eqn:Hdb; [|done].
  destruct (rooms w !! room_id); [|done]. simpl. by rewrite Hdb.
Qed.

(** ** One iteration of the receive loop *)

Lemma send_text_raises ws text w e w' :
  send_text ws text w = (Raise e, w') → e = RuntimeError.
Proof. unfold send_text. case_decide; congruence. Qed.

Lemma send_text_ok ws text w :
  ws ∉ broken w → send_text ws text w = (Ret (), log (Send ws text true) w).
Proof. intros Hok. unfold send_text. by rewrite decide_False. Qed.

Lemma try_except_Exception_raises {A} (m k : M A) w e w' :
  try_except m (except_Exception k) w = (Raise e, w') →
  ∃ w1, k w1 = (Raise e, w').
Proof.
  unfold try_except, except_Exception.
  destruct (m w) as [[a|e1] w1]; [done|]. intros Hk. by exists w1.
Qed.

Section Dispatch.
Context `{JsonCodec} `{FieldValidators} `{OrmSession}.

(** Only a failed send to the sender escapes from the branches. *)
Lemma dispatch_raises room_id ws msg w e w' :
  dispatch room_id ws msg w = (Raise e, w') → e = RuntimeError.
Proof.
  unfold dispatch. case_decide.
  - destruct (code msg) as [c|].
    + intros Hd. apply try_except_Exception_raises in Hd as [w1 Hd].
      by apply send_text_raises in Hd.
    + apply send_text_raises.
  - apply send_text_raises.
Qed.

Lemma loop_body_parsed room_id ws data kwargs msg w :
  json_loads data = Some (JObj kwargs) →
  validate_message kwargs = Some msg →
  loop_body room_id ws data w = dispatch room_id ws msg w.
Proof.
  intros Hloads Hval.
  unfold loop_body, try_except, bind. rewrite Hloads.
  unfold ret, parse_message, WebSocketMessage_init. rewrite Hval. unfold ret.
  destruct (dispatch room_id ws msg w) as [[a|e] w'] eqn:Hd; [done|].
  apply dispatch_raises in Hd as ->. done.
Qed.

Lemma loop_body_not_json room_id ws data w :
  json_loads data = None →
  json_loads_error data = JSONDecodeError →
  loop_body room_id ws data w
  = send_text ws (json_dumps (error_message "Invalid JSON format")) w.
Proof.
  intros Hloads Herr. unfold loop_body, try_except, bind.
  rewrite Hloads, Herr. done.
Qed.

(** What [json.loads] raises besides [JSONDecodeError] is not caught inside
    the loop, pydantic's [ValidationError] apart. *)
Lemma loop_body_loads_raises room_id ws data w :
  json_loads data = None →
  json_loads_error data ≠ JSONDecodeError →
  json_loads_error data ≠ ValidationError →
  loop_body room_id ws data w = (Raise (json_loads_error data), w).
Proof.
  intros Hloads Hj Hv. unfold loop_body, try_except, bind, raise.
  rewrite Hloads. by destruct (json_loads_error data).
Qed.

Lemma loop_body_invalid room_id ws data kwargs w :
  json_loads data = Some (JObj kwargs) →
  validate_message kwargs = None →
  loop_body room_id ws data w
  = send_text ws (json_dumps (error_message "Invalid message format")) w.
Proof.
  intros Hloads Hval.
  unfold loop_body, try_except, bind. rewrite Hloads.
  unfold ret, parse_message, WebSocketMessage_init. by rewrite Hval.
Qed.

Lemma loop_body_not_a_dict room_id ws data v w :
  json_loads data = Some v →
  (∀ kwargs, v ≠ JObj kwargs) →
  loop_body room_id ws data w = (Raise TypeError, w).
Proof.
  intros Hloads Hv. unfold loop_body, try_except, bind.
  rewrite Hloads. unfold ret, parse_message. destruct v as [| | | | | |kwargs]; try done.
  by destruct (Hv kwargs).
Qed.

Lemma dispatch_update room_id ws msg c row w w1 :
  type msg = "code_update" →
  code msg = Some c →
  update_room_code room_id c w = (Ret (Some row), w1) →
  dispatch room_id ws msg w
  = broadcast room_id (code_update_message c (timestamp msg)) (Some ws) w1.
Proof.
  intros Htype Hcode Hupd. unfold dispatch.
  rewrite decide_True, Hcode by done.
  unfold try_except, bind. rewrite Hupd.
  rewrite broadcast_run. by destruct (active_connections w1 !! room_id).
Qed.

End Dispatch.

Lemma validate_message_fields `{FieldValidators} kwargs msg :
  validate_message kwargs = Some msg →
  required validate_str "type" kwargs = Some (type msg)
  ∧ optional validate_str "code" kwargs = Some (code msg)
  ∧ optional validate_int "timestamp" kwargs = Some (timestamp msg)
  ∧ optional validate_str "message" kwargs = Some (message msg)
  ∧ optional validate_str "roomId" kwargs = Some (roomId msg).
Proof.
  unfold validate_message.
  destruct (required validate_str "type" kwargs); [|done].
  destruct (optional validate_str "code" kwargs); [|done].
  destruct (optional validate_int "timestamp" kwargs); [|done].
  destruct (optional validate_str "message" kwargs); [|done].
  destruct (optional validate_str "roomId" kwargs); [|done].
  by intros [= <-].
Qed.

Section Protocol.
Context `{JsonCodec} `{FieldValidators} `{OrmSession}.

(** C3, as the code has it.  A [code_update] frame that validates with a
    [code], and whose store update succeeds, makes the iteration end
    normally after one store update followed by sends that all carry the
    serialization of the dict with [type] "code_update", the validated
    [code] and the validated [timestamp] ([null] when there is none); none
    goes to the sender, and every other listed session whose transport
    takes the frame gets it.  What validation gives is what was sent
    whenever the wire had a string for [code] and an integer, [null] or
    nothing for [timestamp]. *)
Theorem code_update_reaches_peers_as_validated
    (w w1 : World) (room_id : string) (ws peer : WebSocket) (data : string)
    (kwargs : list (string * json)) (msg : WebSocketMessage)
    (c row : string) :
  json_loads data = Some (JObj kwargs) →
  validate_message kwargs = Some msg →
  type msg = "code_update" →
  code msg = Some c →
  update_room_code room_id c w = (Ret (Some row), w1) →
  peer ∈ members room_id w →
  peer ≠ ws →
  peer ∉ broken w →
  let sent :=
    json_dumps
      (JObj [("type", JStr "code_update");
             ("code", JStr c);
             ("timestamp", match timestamp msg with
                           | Some z => JInt z
                           | None => JNull
                           end)]) in
  ∃ w' evs,
    loop_body room_id ws data w = (Ret (), w')
    ∧ trace w' = trace w ++ StoreUpdate room_id c :: evs
    ∧ Send peer sent true ∈ evs
    ∧ (∀ e, e ∈ evs → ∃ p ok, p ≠ ws ∧ e = Send p sent ok)
    ∧ (∀ c', dict_get "code" kwargs = Some (JStr c') → c' = c)
    ∧ (∀ z, dict_get "timestamp" kwargs = Some (JInt z) →
            timestamp msg = Some z)
    ∧ (dict_get "timestamp" kwargs = None
       ∨ dict_get "timestamp" kwargs = Some JNull →
       timestamp msg = None).
Proof.
  intros Hloads Hval Htype Hcode Hupd Hpeer Hne Hok sent.
  rewrite (loop_body_parsed _ _ _ kwargs msg) by done.
  rewrite (dispatch_update _ _ _ c row w w1) by done.
  unfold code_update_message, json_of_timestamp. fold sent.
  rewrite update_room_code_run in Hupd.
  destruct (db_up w); [|done].
  destruct (rooms w !! room_id) as [stored|]; [|done].
  injection Hupd as _ <-.
  unfold members in Hpeer. rewrite broadcast_run. simpl.
  destruct (active_connections w !! room_id) as [conns|] eqn:Hr;
    [|by apply not_elem_of_nil in Hpeer].
  simpl in Hpeer.
  exists
    (set_connections
       (foldl (λ ac p, registry_remove room_id p ac) (active_connections w)
          (failed_sends (Some ws) (broken w) conns))
       (logs (send_events sent (Some ws) (broken w) conns)
          (set_rooms
             (<[room_id := if flushes_code (log (StoreUpdate room_id c) w)
                                room_id c
                           then c else stored]> (rooms w))
             (log (StoreUpdate room_id c) w)))),
    (send_events sent (Some ws) (broken w) conns).
  split; [done|]. split; [simpl; by rewrite <- app_assoc|].
  split; [apply send_events_delivered; [done|congruence|done]|].
  split.
  - intros e He. unfold send_events in He.
    apply list_elem_of_fmap in He as (p & -> & Hp).
    apply list_elem_of_filter in Hp as [Hp _].
    exists p, (bool_decide (p ∉ broken w)). split; [congruence|done].
  - apply validate_message_fields in Hval as (_ & Hc & Hts & _).
    rewrite Hcode in Hc. unfold optional in Hc, Hts. split; [|split].
    + intros c' Hget. rewrite Hget, validate_str_str in Hc. congruence.
    + intros z Hget. rewrite Hget, validate_int_int in Hts. congruence.
    + intros [Hget|Hget]; rewrite Hget in Hts; congruence.
Qed.


(** The two handlers of the loop: a text that is not JSON, and a dict that
    fails validation, are answered to the sender and the loop goes on. *)
Lemma malformed_frame_is_answered room_id ws data w :
  ws ∉ broken w →
  (json_loads data = None ∧ json_loads_error data = JSONDecodeError)
  ∨ (∃ kwargs, json_loads data = Some (JObj kwargs)
               ∧ validate_message kwargs = None) →
  ∃ text, loop_body room_id ws data w
          = (Ret (), log (Send ws (json_dumps (error_message text)) true) w).
Proof.
  intros Hok [[Hloads Herr]|(kwargs & Hloads & Hval)].
  - exists "Invalid JSON format".
    rewrite loop_body_not_json by done. by apply send_text_ok.
  - exists "Invalid message format".
    rewrite (loop_body_invalid _ _ _ kwargs) by done. by apply send_text_ok.
Qed.

(** C7 fails on a frame that is JSON but not an object (a list, a number,
    a string, [null]): unpacking it raises [TypeError], which neither
    handler of the loop takes.  Nothing is sent to the sender, the outer
    handler deregisters the session and the coroutine returns. *)
Theorem non_object_frame_ends_session
    (w : World) (room_id : string) (ws : WebSocket) (data : string)
    (v : json) (rest : list Inbound) :
  json_loads data = Some v →
  (∀ kwargs, v ≠ JObj kwargs) →
  loop_body room_id ws data w = (Raise TypeError, w)
  ∧ resume ws room_id (Text data :: rest) w
    = (Ret Returned,
       set_connections
         (registry_remove room_id ws (active_connections w)) w).
Proof.
  intros Hloads Hv.
  assert (loop_body room_id ws data w = (Raise TypeError, w)) as Hbody
    by (by apply (loop_body_not_a_dict _ _ _ v)).
  split; [done|].
  unfold resume, session_guard, try_except. cbn [receive_loop].
  unfold bind at 1. rewrite Hbody. done.
Qed.

(** Validation reads the five declared keys and nothing else. *)
Lemma validate_message_declared_keys kwargs kwargs' :
  (∀ k, k ∈ declared_fields → dict_get k kwargs' = dict_get k kwargs) →
  validate_message kwargs' = validate_message kwargs.
Proof.
  intros Hsame. unfold validate_message, required, optional.
  by rewrite !Hsame by compute_done.
Qed.

(** C10, as the code has it.  A dict whose [type] is a string and whose
    four optional fields pass their validators is parsed into the message
    made of these five values, and so is every dict that differs from it
    in undeclared keys only; the iteration is the dispatch of that
    message. *)
Theorem undeclared_fields_are_ignored
    (w : World) (room_id : string) (ws : WebSocket) (data : string)
    (kwargs : list (string * json)) (t : string)
    (c : option string) (ts : option Z) (m r : option string) :
  json_loads data = Some (JObj kwargs) →
  dict_get "type" kwargs = Some (JStr t) →
  optional validate_str "code" kwargs = Some c →
  optional validate_int "timestamp" kwargs = Some ts →
  optional validate_str "message" kwargs = Some m →
  optional validate_str "roomId" kwargs = Some r →
  validate_message kwargs = Some (mkWebSocketMessage t c ts m r)
  ∧ (∀ kwargs',
       (∀ k, k ∈ declared_fields → dict_get k kwargs' = dict_get k kwargs) →
       validate_message kwargs' = Some (mkWebSocketMessage t c ts m r))
  ∧ loop_body room_id ws data w
    = dispatch room_id ws (mkWebSocketMessage t c ts m r) w.
Proof.
  intros Hloads Htype Hc Hts Hm Hr.
  assert (validate_message kwargs = Some (mkWebSocketMessage t c ts m r))
    as Hval.
  { unfold validate_message, required.
    by rewrite Htype, validate_str_str, Hc, Hts, Hm, Hr. }
  split; [done|]. split.
  - intros kwargs' Hsame. by rewrite (validate_message_declared_keys kwargs).
  - by apply (loop_body_parsed _ _ _ kwargs).
Qed.

(** Whatever the validators do to other scalars, a list for [code] fails
    validation, string [type] or not. *)
Lemma code_list_fails_validation kwargs l :
  dict_get "code" kwargs = Some (JArr l) → validate_message kwargs = None.
Proof.
  intros Hget. unfold validate_message, optional at 1.
  rewrite Hget, validate_str_arr.
  by destruct (required validate_str "type" kwargs).
Qed.

End Protocol.

(** ** Rooms with sessions are rooms of the table *)

Lemma settles_same w w' :
  active_connections w' = active_connections w → rooms w' = rooms w →
  settles w w'.
Proof. intros Hac Hrooms. unfold settles. by rewrite Hac, Hrooms. Qed.

Lemma settles_refl w : settles w w.
Proof. by apply settles_same. Qed.

Lemma settles_trans w1 w2 w3 : settles w1 w2 → settles w2 w3 → settles w1 w3.
Proof. intros [? ?] [? ?]. split; set_solver. Qed.

Lemma settles_rooms_known w w' : rooms_known w → settles w w' → rooms_known w'.
Proof. unfold rooms_known. intros ? [? ?]. set_solver. Qed.

Lemma settling_ret {A} (a : A) : settling (ret a).
Proof. intros w. apply settles_refl. Qed.

Lemma settling_raise {A} e : settling (@raise A e).
Proof. intros w. apply settles_refl. Qed.

Lemma settling_bind {A B} (m : M A) (k : A → M B) :
  settling m → (∀ a, settling (k a)) → settling (bind m k).
Proof.
  intros Hm Hk w. unfold bind. specialize (Hm w).
  destruct (m w) as [[a|e] w1]; simpl in Hm; [|done].
  eapply settles_trans; [done|]. apply Hk.
Qed.

Lemma settling_try_except {A} (m : M A) h :
  settling m → (∀ e k, h e = Some k → settling k) → settling (try_except m h).
Proof.
  intros Hm Hh w. unfold try_except. specialize (Hm w).
  destruct (m w) as [[a|e] w1]; simpl in Hm; [done|].
  destruct (h e) as [k|] eqn:He; [|done].
  eapply settles_trans; [done|]. by apply (Hh e).
Qed.

Lemma settling_send_text ws text : settling (send_text ws text).
Proof. intros w. unfold send_text. by case_decide; apply settles_same. Qed.

Lemma settling_disconnect r ws : settling (disconnect r ws).
Proof. intros w. split; [apply registry_remove_dom | done]. Qed.

Lemma settling_select_room r : settling (select_room r).
Proof. intros w. unfold select_room. destruct (db_up w); apply settles_refl. Qed.

Lemma settling_update_room_code `{OrmSession} r c :
  settling (update_room_code r c).
Proof.
  intros w. rewrite update_room_code_run.
  destruct (db_up w); [|by apply settles_same].
  destruct (rooms w !! r); [|by apply settles_same].
  split; [done|]. simpl. rewrite dom_insert_L. set_solver.
Qed.

Section Settling.
Context `{JsonCodec} `{FieldValidators} `{OrmSession}.

Lemma settling_broadcast r msg ex : settling (broadcast r msg ex).
Proof.
  intros w. rewrite broadcast_run.
  destruct (active_connections w !! r) as [conns|]; [|apply settles_refl].
  split; [|done]. simpl.
  induction (failed_sends ex (broken w) conns) as [|ws dw IH]
    using rev_ind; [done|].
  rewrite foldl_app. simpl. etrans; [apply registry_remove_dom | done].
Qed.

Lemma settling_send_initial_state ws r : settling (send_initial_state ws r).
Proof.
  apply settling_try_except.
  - apply settling_bind; [apply settling_select_room|].
    intros [c|]; apply settling_send_text.
  - intros e k [= <-]. apply settling_send_text.
Qed.

Lemma settling_dispatch r ws msg : settling (dispatch r ws msg).
Proof.
  unfold dispatch. case_decide; [|apply settling_send_text].
  destruct (code msg) as [c|]; [|apply settling_send_text].
  apply settling_try_except.
  - apply settling_bind; [apply settling_update_room_code|].
    intros [row|]; [apply settling_broadcast | apply settling_send_text].
  - intros e k [= <-]. apply settling_send_text.
Qed.

Lemma settling_loop_body r ws data : settling (loop_body r ws data).
Proof.
  apply settling_try_except.
  - apply settling_bind.
    + destruct (json_loads data); [apply settling_ret | apply settling_raise].
    + intros v. apply settling_bind; [|intros msg; apply settling_dispatch].
      unfold parse_message, WebSocketMessage_init.
      destruct v; try apply settling_raise.
      destruct (validate_message items);
        [apply settling_ret | apply settling_raise].
  - intros e k Hk. destruct e; try done;
      injection Hk as <-; apply settling_send_text.
Qed.

Lemma settling_receive_loop r ws inbound : settling (receive_loop r ws inbound).
Proof.
  induction inbound as [|[data|e] rest IH]; simpl.
  - apply settling_ret.
  - apply settling_bind; [apply settling_loop_body | done].
  - apply settling_raise.
Qed.

Lemma settling_session_guard r ws body :
  settling body → settling (session_guard r ws body).
Proof.
  intros Hbody. apply settling_try_except; [done|].
  intros e k Hk.
  assert (k = bind (disconnect r ws) (λ _, ret Returned)) as ->
    by (destruct e; congruence).
  apply settling_bind; [apply settling_disconnect|].
  intros _. apply settling_ret.
Qed.

Lemma settling_resume ws r inbound : settling (resume ws r inbound).
Proof. apply settling_session_guard, settling_receive_loop. Qed.

Lemma room_exists_run r w :
  room_exists r w
  = if db_up w
    then (Ret (bool_decide (rooms w !! r ≠ None)), w)
    else (Raise SQLAlchemyError, w).
Proof. unfold room_exists, bind, select_room. by destruct (db_up w). Qed.

Lemma websocket_endpoint_rooms_known ws r inbound w :
  rooms_known w → rooms_known (snd (websocket_endpoint ws r inbound w)).
Proof.
  intros Hinv. unfold websocket_endpoint, bind at 1.
  rewrite room_exists_run. destruct (db_up w); [|done].
  case_bool_decide as Hrow; simpl.
  - unfold bind at 1. rewrite connect_run. case_decide; [done|].
    eapply settles_rooms_known;
      [|apply settling_session_guard, settling_bind;
        [apply settling_send_initial_state
        |intros _; apply settling_receive_loop]].
    unfold rooms_known in *. simpl.
    rewrite registry_add_eq, dom_insert_L.
    assert (r ∈ dom (rooms w)) as Hr
      by (apply elem_of_dom; by destruct (rooms w !! r)).
    apply union_subseteq. split; [by apply singleton_subseteq_l | done].
  - unfold bind, close. by case_decide.
Qed.

Lemma step_rooms_known a s :
  rooms_known (world s) → rooms_known (world (step a s)).
Proof.
  intros Hinv. destruct a as [ws r|ws i|r|bk|up]; simpl.
  - case_decide; [done|].
    pose proof (websocket_endpoint_rooms_known ws r [] (world s) Hinv) as Hw.
    destruct (websocket_endpoint ws r [] (world s)) as [[[|]|e] w'];
      by simpl in *.
  - destruct (tasks s !! ws) as [r|]; [|done].
    pose proof (settling_resume ws r [i] (world s)) as Hw.
    destruct (resume ws r [i] (world s)) as [[[|]|e] w']; simpl in *;
      by eapply settles_rooms_known.
  - destruct (db_up (world s) && bool_decide (rooms (world s) !! r = None));
      [|done].
    unfold rooms_known in *. simpl. rewrite dom_insert_L. set_solver.
  - done.
  - done.
Qed.

Lemma reachable_rooms_known s : reachable s → rooms_known (world s).
Proof.
  intros (rs & acts & ->). unfold run.
  induction acts as [|a acts IH] using rev_ind.
  - unfold rooms_known. simpl. set_solver.
  - rewrite foldl_app. simpl. by apply step_rooms_known.
Qed.

(** C5.  In every state the server reaches, a connection attempt for a
    room whose existence check answers [False] makes a single call to the
    outside, [close] with code 4004 and reason "Room not found": the
    transport is never accepted, the dictionary is untouched and has no
    entry for the room, and the coroutine ends without ever waiting for a
    frame. *)
Theorem unknown_room_is_refused
    (s : System) (ws : WebSocket) (room_id : string)
    (inbound : list Inbound) (w0 : World) :
  reachable s →
  room_exists room_id (world s) = (Ret false, w0) →
  let refusal := Close ws 4004%Z "Room not found" in
  websocket_endpoint ws room_id inbound (world s)
  = (if decide (ws ∈ broken (world s))
     then Raise RuntimeError else Ret Returned,
     log refusal (world s))
  ∧ trace (log refusal (world s)) = trace (world s) ++ [refusal]
  ∧ active_connections (log refusal (world s))
    = active_connections (world s)
  ∧ active_connections (log refusal (world s)) !! room_id = None
  ∧ (ws ∉ dom (tasks s) →
     step (ClientConnects ws room_id) s
     = mkSystem (log refusal (world s)) (tasks s)).
Proof.
  intros Hreach Hexists refusal.
  assert (w0 = world s ∧ rooms (world s) !! room_id = None) as [-> Hrow].
  { rewrite room_exists_run in Hexists.
    destruct (db_up (world s)); [|done].
    injection Hexists as Hrow <-. apply bool_decide_eq_false in Hrow.
    split; [done|].
    destruct (rooms (world s) !! room_id); [by destruct Hrow | done]. }
  assert (websocket_endpoint ws room_id inbound (world s)
          = (if decide (ws ∈ broken (world s))
             then Raise RuntimeError else Ret Returned,
             log refusal (world s))) as Hrun.
  { unfold websocket_endpoint, bind at 1. rewrite Hexists. simpl.
    unfold bind, close. by case_decide. }
  split; [apply Hrun|]. split; [done|]. split; [done|]. split.
  - apply reachable_rooms_known in Hreach. unfold rooms_known in Hreach.
    simpl. apply not_elem_of_dom. intros Hin. apply Hreach in Hin.
    apply elem_of_dom in Hin as [row Hin]. congruence.
  - intros Hnew. simpl. rewrite decide_False by done.
    unfold websocket_endpoint, bind at 1. rewrite Hexists. simpl.
    unfold bind, close. by case_decide.
Qed.

End Settling.

(** ** Suspending and resuming the coroutine *)

Lemma bind_run {A B} (m : M A) (k : A → M B) w :
  bind m k w
  = match m w with
    | (Ret a, w') => k a w'
    | (Raise e, w') => (Raise e, w')
    end.
Proof. done. Qed.

Section Resume.
Context `{JsonCodec} `{FieldValidators} `{OrmSession}.

Lemma receive_loop_app r ws a b w :
  receive_loop r ws (a ++ b) w
  = match receive_loop r ws a w with
    | (Ret Awaiting, w') => receive_loop r ws b w'
    | other => other
    end.
Proof.
  revert w. induction a as [|[data|e] a IH]; intros w; simpl; [done| |done].
  unfold bind. destruct (loop_body r ws data w) as [[[]|e] w1]; [|done].
  apply IH.
Qed.

(** Running the coroutine on more frames is running it on the first ones
    and, if it is then suspended, picking it up on the others. *)
Lemma websocket_endpoint_resume ws r a b w :
  websocket_endpoint ws r (a ++ b) w
  = match websocket_endpoint ws r a w with
    | (Ret Awaiting, w') => resume ws r b w'
    | other => other
    end.
Proof.
  unfold websocket_endpoint. rewrite !(bind_run (room_exists r)).
  destruct (room_exists r w) as [[found|e] w1]; [|done].
  destruct found; simpl.
  - rewrite !(bind_run (connect r ws)).
    destruct (connect r ws w1) as [[[]|e] w2]; [|done].
    unfold resume, session_guard, try_except.
    rewrite !(bind_run (send_initial_state ws r)).
    destruct (send_initial_state ws r w2) as [[[]|e] w3].
    + rewrite receive_loop_app.
      destruct (receive_loop r ws a w3) as [[[|]|e] w4]; try done.
      by destruct e.
    + by destruct e.
  - rewrite bind_run.
    by destruct (close ws 4004%Z "Room not found" w1) as [[[]|e] w2].
Qed.
End Resume.

(** ** Reading the wire *)

(** A dict without the key [code] validates, if it does, to a message whose
    [code] is [None]. *)
Lemma absent_code_is_none `{FieldValidators} kwargs msg :
  validate_message kwargs = Some msg →
  dict_get "code" kwargs = None →
  code msg = None.
Proof.
  intros Hval Hget. apply validate_message_fields in Hval as (_ & Hc & _).
  unfold optional in Hc. rewrite Hget in Hc. congruence.
Qed.

(** A dictionary that lists a room without session is not left alone by a
    [disconnect] for that room: the entry goes. *)
Example disconnect_drops_empty_entry :
  let w := mkWorld {["room" := []]} ∅ true ∅ [] in
  active_connections (snd (disconnect "room" 1 w)) = ∅.
Proof. compute_done. Qed.

(** * The theorems at work *)

Section Examples.
#[local] Existing Instance example_codec.
#[local] Existing Instance strict_validators.
#[local] Existing Instance fresh_session.

Lemma broadcast_isolates_failed_send_witness :
  ∃ w' evs,
    broadcast "abcd1234" (JStr "hi") (Some 1) example_world = (Ret (), w')
    ∧ trace w' = trace example_world ++ evs
    ∧ Send 2 (json_dumps (JStr "hi")) false ∈ evs
    ∧ (∀ j, j ∈ [1; 2; 3] → j ≠ 2 → Some j ≠ Some 1 →
            j ∉ broken example_world →
            Send j (json_dumps (JStr "hi")) true ∈ evs)
    ∧ 2 ∉ members "abcd1234" w'.
Proof.
  apply (broadcast_isolates_failed_send
           example_world "abcd1234" (JStr "hi") (Some 1) [1; 2; 3] 2);
    compute_done.
Defined.

Lemma registry_lists_exactly_the_occupied_rooms_witness :
  let w :=
    run_calls [CallConnect "room" 1; CallConnect "room" 2;
               CallDisconnect "room" 1]
      (new_manager ∅ true ∅) in
  ("room" ∈ dom (active_connections w) ↔ ∃ p, p ∈ members "room" w)
  ∧ active_connections (new_manager ∅ true ∅) = ∅
  ∧ (2 ∉ broken w →
     active_connections (call (CallConnect "room" 2) w) !! "room"
     = Some (members "room" w ++ [2]))
  ∧ (2 ∉ broken w → "room" ∉ dom (active_connections w) →
     active_connections (call (CallConnect "room" 2) w) !! "room"
     = Some [2])
  ∧ (∀ c, (∀ r p, c ≠ CallConnect r p) →
          dom (active_connections (call c w)) ⊆ dom (active_connections w))
  ∧ (list_remove 2 (members "room" w) = [] →
     active_connections (call (CallDisconnect "room" 2) w) !! "room" = None)
  ∧ (list_remove 2 (members "room" w) ≠ [] →
     active_connections (call (CallDisconnect "room" 2) w) !! "room"
     = Some (list_remove 2 (members "room" w)))
  ∧ (2 ∉ broken w → "room" ∉ dom (active_connections w) →
     active_connections
       (call (CallDisconnect "room" 2) (call (CallConnect "room" 2) w))
     = active_connections w).
Proof.
  exact (registry_lists_exactly_the_occupied_rooms ∅ true ∅
           [CallConnect "room" 1; CallConnect "room" 2;
            CallDisconnect "room" 1] "room" 2).
Defined.

(** The last session of a room leaving takes the entry with it. *)
Example last_session_leaving_deletes_entry :
  let w := run_calls [CallConnect "room" 1] (new_manager ∅ true ∅) in
  active_connections (new_manager ∅ true ∅) !! "room" = None
  ∧ active_connections w !! "room" = Some [1]
  ∧ active_connections (call (CallConnect "room" 2) w) !! "room"
    = Some [1; 2]
  ∧ active_connections (call (CallDisconnect "room" 1) w) !! "room" = None
  ∧ active_connections (call (CallDisconnect "room" 1) w) = ∅.
Proof. cbv zeta. repeat split; compute_done. Qed.

Lemma code_update_reaches_peers_as_validated_witness :
  let sent :=
    json_dumps
      (JObj [("type", JStr "code_update");
             ("code", JStr "x=1");
             ("timestamp", JInt 42)]) in
  ∃ w' evs,
    loop_body "abcd1234" 1 (dumps frame_update) example_world = (Ret (), w')
    ∧ trace w' = trace example_world ++ StoreUpdate "abcd1234" "x=1" :: evs
    ∧ Send 3 sent true ∈ evs
    ∧ (∀ e, e ∈ evs → ∃ p ok, p ≠ 1 ∧ e = Send p sent ok)
    ∧ (∀ c', dict_get "code"
               [("type", JStr "code_update"); ("code", JStr "x=1");
                ("timestamp", JInt 42)] = Some (JStr c') → c' = "x=1")
    ∧ (∀ z, dict_get "timestamp"
              [("type", JStr "code_update"); ("code", JStr "x=1");
               ("timestamp", JInt 42)] = Some (JInt z) →
            Some 42%Z = Some z)
    ∧ (dict_get "timestamp"
         [("type", JStr "code_update"); ("code", JStr "x=1");
          ("timestamp", JInt 42)] = None
       ∨ dict_get "timestamp"
           [("type", JStr "code_update"); ("code", JStr "x=1");
            ("timestamp", JInt 42)] = Some JNull →
       Some 42%Z = None).
Proof.
  apply (code_update_reaches_peers_as_validated
           example_world
           (snd (update_room_code "abcd1234" "x=1" example_world))
           "abcd1234" 1 3 (dumps frame_update)
           [("type", JStr "code_update"); ("code", JStr "x=1");
            ("timestamp", JInt 42)]
           (mkWebSocketMessage "code_update" (Some "x=1") (Some 42%Z)
              None None)
           "x=1" "x=1");
    compute_done.
Defined.

(** The round trip of the specification on the wire: the two peers of the
    sender are sent the very text that came in, and the one with a working
    transport gets it. *)
Example update_round_trip :
  trace (snd (loop_body "abcd1234" 1 (dumps frame_update) example_world))
  = [StoreUpdate "abcd1234" "x=1";
     Send 2 (dumps frame_update) false;
     Send 3 (dumps frame_update) true].
Proof. compute_done. Qed.

Lemma unknown_room_is_refused_witness :
  let refusal := Close 7 4004%Z "Room not found" in
  websocket_endpoint 7 "nonexist1" [] (world example_system)
  = (if decide (7 ∈ broken (world example_system))
     then Raise RuntimeError else Ret Returned,
     log refusal (world example_system))
  ∧ trace (log refusal (world example_system))
    = trace (world example_system) ++ [refusal]
  ∧ active_connections (log refusal (world example_system))
    = active_connections (world example_system)
  ∧ active_connections (log refusal (world example_system)) !! "nonexist1"
    = None
  ∧ (7 ∉ dom (tasks example_system) →
     step (ClientConnects 7 "nonexist1") example_system
     = mkSystem (log refusal (world example_system)) (tasks example_system)).
Proof.
  apply (unknown_room_is_refused example_system 7 "nonexist1" []
           (world example_system)).
  - exists {["abcd1234" := ""]}, [ClientConnects 1 "abcd1234"]. reflexivity.
  - compute_done.
Defined.


Lemma non_object_frame_ends_session_witness :
  loop_body "abcd1234" 1 (dumps frame_array) example_world
  = (Raise TypeError, example_world)
  ∧ resume 1 "abcd1234" [Text (dumps frame_array)] example_world
    = (Ret Returned,
       set_connections
         (registry_remove "abcd1234" 1 (active_connections example_world))
         example_world).
Proof.
  apply (non_object_frame_ends_session
           example_world "abcd1234" 1 (dumps frame_array) frame_array []).
  - compute_done.
  - intros kwargs. discriminate.
Defined.

(** The frame [[1]] on the wire: the sender gets no reply and is gone from
    the room. *)
Example list_frame_drops_sender :
  let w' := snd (resume 1 "abcd1234" [Text "[1]"] example_world) in
  fst (resume 1 "abcd1234" [Text "[1]"] example_world) = Ret Returned
  ∧ trace w' = []
  ∧ members "abcd1234" w' = [2; 3].
Proof. cbv zeta. split; [compute_done|]. split; compute_done. Qed.

Lemma undeclared_fields_are_ignored_witness :
  let kwargs :=
    [("type", JStr "code_update"); ("code", JStr "x=1"); ("cursor", JInt 3)] in
  let msg := mkWebSocketMessage "code_update" (Some "x=1") None None None in
  validate_message kwargs = Some msg
  ∧ (∀ kwargs',
       (∀ k, k ∈ declared_fields → dict_get k kwargs' = dict_get k kwargs) →
       validate_message kwargs' = Some msg)
  ∧ loop_body "abcd1234" 1 (dumps frame_extra) example_world
    = dispatch "abcd1234" 1 msg example_world.
Proof.
  apply (undeclared_fields_are_ignored
           example_world "abcd1234" 1 (dumps frame_extra)
           [("type", JStr "code_update"); ("code", JStr "x=1");
            ("cursor", JInt 3)]
           "code_update" (Some "x=1") None None None);
    compute_done.
Defined.

(** C10, as stated, fails on a dict with a string [type] and a list for
    [code]: validation fails and the frame is answered as malformed. *)
Lemma string_type_alone_does_not_validate :
  let kwargs := [("type", JStr "code_update"); ("code", JArr [JStr "x"])] in
  json_loads (dumps (JObj kwargs)) = Some (JObj kwargs)
  ∧ dict_get "type" kwargs = Some (JStr "code_update")
  ∧ validate_message kwargs = None
  ∧ loop_body "abcd1234" 1 (dumps (JObj kwargs)) example_world
    = (Ret (),
       log (Send 1 (json_dumps (error_message "Invalid message format")) true)
         example_world).
Proof.
  cbv zeta. split; [compute_done|]. split; [compute_done|].
  split; compute_done.
Qed.

End Examples.

(** * Further properties of the registry *)

Lemma list_remove_app_absent x l : x ∉ l → list_remove x (l ++ [x]) = l.
Proof.
  induction l as [|y l IH]; intros Hx; simpl.
  - by rewrite decide_True.
  - apply not_elem_of_cons in Hx as [Hne Hx].
    rewrite decide_False by done. by rewrite IH.
Qed.

Lemma registry_round_trip r ws ac :
  no_empty_room ac →
  ws ∉ default [] (ac !! r) →
  registry_remove r ws (registry_add r ws ac) = ac.
Proof.
  intros Hinv Hws. apply map_eq. intros r'.
  destruct (decide (r = r')) as [<-|Hne].
  - rewrite registry_remove_lookup, registry_add_lookup.
    rewrite list_remove_app_absent by done.
    destruct (ac !! r) as [conns|] eqn:Hr; cbn [default].
    + rewrite decide_False; [done|]. by apply Hinv in Hr.
    + by rewrite decide_True.
  - by rewrite registry_remove_lookup_ne, registry_add_lookup_ne.
Qed.

(** X1.  For a session the room does not list yet, in a dictionary without
    empty lists, [connect] (accepted by the transport) followed by
    [disconnect] gives back the dictionary it started from, whether or not
    the room had other sessions. *)
Theorem connect_then_disconnect_restores_registry
    (w : World) (room_id : string) (ws : WebSocket) :
  no_empty_room (active_connections w) →
  ws ∉ members room_id w →
  ws ∉ broken w →
  active_connections (snd (disconnect room_id ws (snd (connect room_id ws w))))
  = active_connections w.
Proof.
  intros Hinv Hws Hok. rewrite connect_run, decide_False by done.
  rewrite disconnect_run. simpl. by apply registry_round_trip.
Qed.

Lemma connect_then_disconnect_restores_registry_witness :
  let w := mkWorld {["room" := [1; 2]]} ∅ true ∅ [] in
  active_connections (snd (disconnect "room" 3 (snd (connect "room" 3 w))))
  = active_connections w.
Proof.
  intros w.
  apply (connect_then_disconnect_restores_registry w "room" 3); compute_done.
Defined.

(** X2.  [disconnect] returns normally and takes away exactly one listing of
    its session in its room, when there is one: every other session keeps
    its listings, and every other room its list. *)
Theorem disconnect_removes_one_listing
    (w : World) (room_id : string) (ws : WebSocket)
    (r : string) (p : WebSocket) :
  fst (disconnect room_id ws w) = Ret ()
  ∧ occurrences p (members r (snd (disconnect room_id ws w)))
    = occurrences p (members r w)
      - (if decide (r = room_id ∧ p = ws) then 1 else 0).
Proof.
  split; [done|].
  destruct (decide (r = room_id ∧ p = ws)) as [[-> ->]|Hn].
  - rewrite members_disconnect, occurrences_remove. by rewrite decide_True.
  - destruct (decide (r = room_id)) as [->|Hne].
    + rewrite members_disconnect, occurrences_remove.
      rewrite decide_False; [lia|]. intros ->. by apply Hn.
    + rewrite disconnect_run. unfold members. simpl.
      rewrite registry_remove_lookup_ne by done. lia.
Qed.

Section MoreBroadcast.
Context `{JsonCodec}.

(** X3.  [broadcast] to a listed room makes one call to [send_text] per
    listing other than [exclude], in the order of the list, each with the
    serialized message; a failed call does not stop the later ones. *)
Theorem broadcast_attempts_every_listing_in_order
    (w : World) (room_id : string) (msg : json) (exclude : option WebSocket)
    (conns : list WebSocket) :
  active_connections w !! room_id = Some conns →
  trace (snd (broadcast room_id msg exclude w))
  = trace w
    ++ ((λ c, Send c (json_dumps msg) (bool_decide (c ∉ broken w)))
          <$> filter (λ c, Some c ≠ exclude) conns).
Proof. intros Hr. by rewrite broadcast_run, Hr. Qed.

(** X4.  [broadcast] unregisters nobody whose send it did not see fail: a
    session with a working transport, and the excluded session whatever
    its transport, keep their listings in every room. *)
Theorem broadcast_keeps_sessions_it_did_not_fail
    (w : World) (room_id : string) (msg : json) (exclude : option WebSocket)
    (r : string) (p : WebSocket) :
  p ∉ broken w ∨ Some p = exclude →
  occurrences p (members r (snd (broadcast room_id msg exclude w)))
  = occurrences p (members r w).
Proof.
  intros Hp. rewrite broadcast_run.
  destruct (active_connections w !! room_id) as [conns|] eqn:Hr; [|done].
  unfold members. simpl.
  destruct (decide (room_id = r)) as [<-|Hne].
  - rewrite remove_each_default, Hr, occurrences_remove_all. simpl.
    assert (occurrences p (failed_sends exclude (broken w) conns) = 0) as ->;
      [|lia].
    apply occurrences_zero. unfold failed_sends, recipients.
    rewrite !list_elem_of_filter. intros (Hbk & Hne & _).
    by destruct Hp.
  - by rewrite remove_each_lookup_ne.
Qed.

End MoreBroadcast.

(** * Further properties of the store *)

Lemma get_room_run r w :
  get_room r w
  = if db_up w then (Ret (rooms w !! r), w) else (Raise SQLAlchemyError, w).
Proof. done. Qed.

(** X7.  [update_room_code] never makes or drops a row and never writes to
    another room; it changes the table only when it returns a row, and it
    leaves the connection dictionary alone. *)
Theorem update_room_code_touches_its_row_only `{OrmSession}
    (w : World) (room_id c : string) :
  dom (rooms (snd (update_room_code room_id c w))) = dom (rooms w)
  ∧ (∀ r, r ≠ room_id →
          rooms (snd (update_room_code room_id c w)) !! r = rooms w !! r)
  ∧ ((∀ row, fst (update_room_code room_id c w) ≠ Ret (Some row)) →
     rooms (snd (update_room_code room_id c w)) = rooms w)
  ∧ active_connections (snd (update_room_code room_id c w))
    = active_connections w.
Proof.
  rewrite update_room_code_run.
  destruct (db_up w); [|done].
  destruct (rooms w !! room_id) as [old|] eqn:Hr; [|done]. simpl.
  split; [|split; [|split; [|done]]].
  - rewrite dom_insert_L. apply subseteq_union_1_L, singleton_subseteq_l.
    by apply elem_of_dom_2 in Hr.
  - intros r Hne. by rewrite lookup_insert_ne.
  - intros Hnot. by edestruct Hnot.
Qed.

Lemma room_exists_true_run r w w' :
  room_exists r w = (Ret true, w') →
  w' = w ∧ db_up w = true ∧ ∃ c, rooms w !! r = Some c.
Proof.
  unfold room_exists, bind, select_room. destruct (db_up w); [|done].
  unfold ret. intros [= Hrow <-]. apply bool_decide_eq_true in Hrow.
  split; [done|]. split; [done|].
  destruct (rooms w !! r) as [c|]; [by exists c | done].
Qed.

Lemma fresh_room_id_sound first rest w picked w' :
  fresh_room_id first rest w = (Ret (Some picked), w') →
  w' = w ∧ db_up w = true ∧ picked ∈ first :: rest
  ∧ rooms w !! picked = None.
Proof.
  revert first. induction rest as [|next rest IH]; intros first;
    cbn [fresh_room_id]; rewrite bind_run, room_exists_run;
    destruct (db_up w); try done;
    case_bool_decide as Hrow; simpl; unfold ret.
  - done.
  - intros [= <- <-]. split; [done|]. split; [done|].
    split; [left|]. by destruct (rooms w !! first); [destruct Hrow|].
  - intros Hrec. apply IH in Hrec as (-> & _ & Hin & Hnone).
    split; [done|]. split; [done|]. split; [by right | done].
  - intros [= <- <-]. split; [done|]. split; [done|].
    split; [left|]. by destruct (rooms w !! first); [destruct Hrow|].
Qed.

Lemma fresh_room_id_complete taken fresh rest w :
  db_up w = true →
  (∀ d, d ∈ taken → d ∈ dom (rooms w)) →
  fresh ∉ dom (rooms w) →
  ∀ first tail, first :: tail = taken ++ fresh :: rest →
  fresh_room_id first tail w = (Ret (Some fresh), w).
Proof.
  intros Hdb Htaken Hfresh.
  induction taken as [|d taken IH]; intros first tail Heq.
  - injection Heq as -> ->.
    assert (room_exists fresh w = (Ret false, w)) as Hno.
    { rewrite room_exists_run, Hdb. apply not_elem_of_dom in Hfresh.
      by rewrite Hfresh. }
    destruct rest; cbn [fresh_room_id]; by rewrite bind_run, Hno.
  - injection Heq as -> ->.
    assert (room_exists d w = (Ret true, w)) as Hyes.
    { rewrite room_exists_run, Hdb.
      assert (d ∈ dom (rooms w)) as Hd by (apply Htaken; left).
      apply elem_of_dom in Hd as [c Hd]. by rewrite Hd. }
    assert (∃ next rest', taken ++ fresh :: rest = next :: rest')
      as (next & rest' & Hlist).
    { destruct taken; simpl; eauto. }
    rewrite Hlist. cbn [fresh_room_id]. rewrite bind_run, Hyes. simpl.
    apply IH; [|done]. intros d' Hd'. apply Htaken. by right.
Qed.

Lemma create_room_sound w w1 draws room_id c :
  create_room draws w = (Ret (Some (room_id, c)), w1) →
  db_up w = true
  ∧ room_id ∈ draws
  ∧ rooms w !! room_id = None
  ∧ c = ""
  ∧ w1 = set_rooms (<[room_id := ""]> (rooms w)) w.
Proof.
  unfold create_room. destruct draws as [|first rest]; [done|].
  rewrite bind_run.
  destruct (fresh_room_id first rest w) as [[[picked|]|e] w0] eqn:Hpick;
    [|done|done].
  apply fresh_room_id_sound in Hpick as (-> & Hdb & Hin & Hnone).
  rewrite bind_run. unfold insert_room. rewrite Hdb. unfold ret.
  by intros [= <- <- <-].
Qed.

(** X8.  Whenever [create_room] returns a row, its id is one of the ids
    drawn, no row had that id before, its code is empty, and the table is
    the old one with that single row added; the connection dictionary is
    untouched. *)
Theorem create_room_adds_one_new_row
    (w w1 : World) (draws : list string) (room_id c : string) :
  create_room draws w = (Ret (Some (room_id, c)), w1) →
  room_id ∈ draws
  ∧ rooms w !! room_id = None
  ∧ c = ""
  ∧ rooms w1 = <[room_id := ""]> (rooms w)
  ∧ active_connections w1 = active_connections w.
Proof.
  intros Hcreate.
  apply create_room_sound in Hcreate as (_ & Hin & Hnone & -> & ->).
  done.
Qed.

(** X9.  With the database up, [create_room] returns the first id drawn
    that no row has, skipping the ids in use, and stores it with empty
    code. *)
Theorem create_room_takes_first_unused_id
    (w : World) (taken rest : list string) (fresh : string) :
  db_up w = true →
  (∀ d, d ∈ taken → d ∈ dom (rooms w)) →
  fresh ∉ dom (rooms w) →
  create_room (taken ++ fresh :: rest) w
  = (Ret (Some (fresh, "")), set_rooms (<[fresh := ""]> (rooms w)) w).
Proof.
  intros Hdb Htaken Hfresh. unfold create_room.
  assert (∃ first tail, taken ++ fresh :: rest = first :: tail)
    as (first & tail & Hlist).
  { destruct taken; simpl; eauto. }
  rewrite Hlist, bind_run.
  rewrite (fresh_room_id_complete taken fresh rest) by done.
  rewrite bind_run. unfold insert_room. by rewrite Hdb.
Qed.







(** * Further properties of the endpoint *)

Section MoreEndpoint.
Context `{JsonCodec} `{FieldValidators} `{OrmSession}.

Lemma send_initial_state_alive ws r w :
  ws ∉ broken w →
  send_initial_state ws r w
  = (Ret (),
     log (Send ws
            (json_dumps
               (if db_up w
                then match rooms w !! r with
                     | Some c =>
                         JObj [("type", JStr "initial_state");
                               ("code", JStr c); ("roomId", JStr r)]
                     | None => error_message "Room not found"
                     end
                else error_message "Failed to retrieve initial state"))
            true) w).
Proof.
  intros Hok. unfold send_initial_state, try_except. rewrite bind_run.
  rewrite get_room_run. destruct (db_up w).
  - destruct (rooms w !! r); by rewrite send_text_ok.
  - unfold except_Exception. by rewrite send_text_ok.
Qed.





Lemma websocket_endpoint_join ws r c w :
  db_up w = true →
  rooms w !! r = Some c →
  ws ∉ broken w →
  websocket_endpoint ws r [] w
  = (Ret Awaiting,
     log (Send ws
            (json_dumps (JObj [("type", JStr "initial_state");
                               ("code", JStr c); ("roomId", JStr r)]))
            true)
       (set_connections (registry_add r ws (active_connections w))
          (log (Accept ws) w))).
Proof.
  intros Hdb Hrow Hok. unfold websocket_endpoint.
  rewrite bind_run, room_exists_run, Hdb, Hrow. simpl.
  rewrite bind_run, connect_run, decide_False by done.
  unfold session_guard, try_except. rewrite bind_run.
  rewrite send_initial_state_alive by done. simpl. by rewrite Hdb, Hrow.
Qed.

(** X13.  A client that opens a room of the table over a working transport
    and database is accepted, appended to the room's list and sent the
    room's stored code as [initial_state]; the coroutine then waits for
    the first frame.  Other rooms and the table are as before. *)
Theorem join_registers_and_sends_state
    (w : World) (ws : WebSocket) (room_id c : string) :
  db_up w = true →
  rooms w !! room_id = Some c →
  ws ∉ broken w →
  ∃ w',
    websocket_endpoint ws room_id [] w = (Ret Awaiting, w')
    ∧ trace w'
      = trace w
        ++ [Accept ws;
            Send ws
              (json_dumps (JObj [("type", JStr "initial_state");
                                 ("code", JStr c); ("roomId", JStr room_id)]))
              true]
    ∧ members room_id w' = members room_id w ++ [ws]
    ∧ (∀ r, r ≠ room_id →
            active_connections w' !! r = active_connections w !! r)
    ∧ rooms w' = rooms w.
Proof.
  intros Hdb Hrow Hok. eexists. split; [by apply websocket_endpoint_join|].
  simpl. split; [by rewrite <- app_assoc|]. split.
  - unfold members. simpl. by rewrite registry_add_lookup.
  - split; [|done]. intros r Hne. by rewrite registry_add_lookup_ne.
Qed.

(** X14.  A session whose first [receive_text] raises, a client that
    leaves at once for instance, goes through accept, initial state and
    [disconnect]: the coroutine returns and the dictionary is the one from
    before the client came. *)
Theorem join_then_leave_restores_registry
    (w : World) (ws : WebSocket) (room_id c : string) (e : Exn)
    (later : list Inbound) :
  db_up w = true →
  rooms w !! room_id = Some c →
  ws ∉ broken w →
  no_empty_room (active_connections w) →
  ws ∉ members room_id w →
  ∃ w',
    websocket_endpoint ws room_id (Fails e :: later) w = (Ret Returned, w')
    ∧ active_connections w' = active_connections w
    ∧ trace w'
      = trace w
        ++ [Accept ws;
            Send ws
              (json_dumps (JObj [("type", JStr "initial_state");
                                 ("code", JStr c); ("roomId", JStr room_id)]))
              true].
Proof.
  intros Hdb Hrow Hok Hinv Hws.
  rewrite (websocket_endpoint_resume ws room_id [] (Fails e :: later)).
  rewrite (websocket_endpoint_join ws room_id c) by done.
  unfold resume, session_guard, try_except. cbn [receive_loop]. unfold raise.
  eexists. split; [by destruct e|]. split.
  - destruct e; simpl; by apply registry_round_trip.
  - destruct e; simpl; by rewrite <- app_assoc.
Qed.

(** X15.  Once the table is without rows, as [init_db] leaves it at
    startup, every connection attempt is refused with code 4004, whatever
    room it names. *)
Theorem after_init_db_every_join_is_refused
    (w : World) (ws : WebSocket) (room_id : string) (inbound : list Inbound) :
  db_up w = true →
  fst (init_db w) = Ret ()
  ∧ snd (websocket_endpoint ws room_id inbound (snd (init_db w)))
    = log (Close ws 4004%Z "Room not found") (snd (init_db w))
  ∧ fst (websocket_endpoint ws room_id inbound (snd (init_db w)))
    ≠ Ret Awaiting.
Proof.
  intros Hdb. unfold init_db. rewrite Hdb. split; [done|].
  unfold websocket_endpoint. rewrite bind_run, room_exists_run. simpl.
  rewrite Hdb, lookup_empty. simpl.
  rewrite bind_run. unfold close. by case_decide.
Qed.

(** X16.  A room made by [create_room] can be joined: the client is
    accepted, listed as the room's only session when nobody was there, and
    sent an [initial_state] with empty code. *)
Theorem created_room_can_be_joined
    (w w1 : World) (draws : list string) (room_id c : string)
    (ws : WebSocket) :
  create_room draws w = (Ret (Some (room_id, c)), w1) →
  ws ∉ broken w →
  ∃ w2,
    websocket_endpoint ws room_id [] w1 = (Ret Awaiting, w2)
    ∧ members room_id w2 = members room_id w ++ [ws]
    ∧ trace w2
      = trace w
        ++ [Accept ws;
            Send ws
              (json_dumps (JObj [("type", JStr "initial_state");
                                 ("code", JStr ""); ("roomId", JStr room_id)]))
              true].
Proof.
  intros Hcreate Hok.
  apply create_room_sound in Hcreate as (Hdb & _ & _ & _ & ->).
  eexists. split.
  - apply websocket_endpoint_join; [done| |done]. simpl.
    by rewrite lookup_insert_eq.
  - simpl. split; [|by rewrite <- app_assoc].
    unfold members. simpl. by rewrite registry_add_lookup.
Qed.

End MoreEndpoint.

(** * What a frame can and cannot do *)

Section Keeps.
Context (R : World → World → Prop).
Hypothesis R_refl : ∀ w, R w w.
Hypothesis R_trans : ∀ w1 w2 w3, R w1 w2 → R w2 w3 → R w1 w3.

Lemma keeps_ret {A} (a : A) : keeps R (ret a).
Proof. intros w. apply R_refl. Qed.

Lemma keeps_raise {A} e : keeps R (@raise A e).
Proof. intros w. apply R_refl. Qed.

Lemma keeps_bind {A B} (m : M A) (k : A → M B) :
  keeps R m → (∀ a, keeps R (k a)) → keeps R (bind m k).
Proof.
  intros Hm Hk w. unfold bind. specialize (Hm w).
  destruct (m w) as [[a|e] w1]; simpl in Hm; [|done].
  eapply R_trans; [done|]. apply Hk.
Qed.

Lemma keeps_try_except {A} (m : M A) h :
  keeps R m → (∀ e k, h e = Some k → keeps R k) → keeps R (try_except m h).
Proof.
  intros Hm Hh w. unfold try_except. specialize (Hm w).
  destruct (m w) as [[a|e] w1]; simpl in Hm; [done|].
  destruct (h e) as [k|] eqn:He; [|done].
  eapply R_trans; [done|]. by apply (Hh e).
Qed.

End Keeps.

Lemma occurrences_elem_of x l : x ∈ l ↔ occurrences x l ≠ 0.
Proof.
  rewrite occurrences_zero. split; [by intros ? ?|].
  intros Hnn. by destruct (decide (x ∈ l)).
Qed.

Lemma frame_refl r ws w : frame r ws w w.
Proof.
  split; try done. exists []. split; [by rewrite app_nil_r | constructor].
Qed.

Lemma frame_trans r ws w1 w2 w3 :
  frame r ws w1 w2 → frame r ws w2 w3 → frame r ws w1 w3.
Proof.
  intros [Hb1 Hd1 Ho1 Hl1 Hn1 Hr1 Hk1 (evs1 & Ht1 & Ha1)]
         [Hb2 Hd2 Ho2 Hl2 Hn2 Hr2 Hk2 (evs2 & Ht2 & Ha2)].
  split.
  - congruence.
  - congruence.
  - intros r' Hne. by rewrite Ho2, Ho1.
  - intros p. etrans; [apply Hl2 | apply Hl1].
  - tauto.
  - intros r' Hne. by rewrite Hr2, Hr1.
  - congruence.
  - exists (evs1 ++ evs2). split; [by rewrite Ht2, Ht1, app_assoc|].
    apply Forall_app. split; [done|].
    eapply Forall_impl; [done|]. intros [p| p text ok| |r' c]; simpl; try done.
    intros [->|Hp]; [by left | right].
    apply occurrences_elem_of. apply occurrences_elem_of in Hp.
    specialize (Hl1 p). lia.
Qed.

Lemma frame_logs r ws evs w :
  Forall (addressed r ws w) evs → frame r ws w (logs evs w).
Proof. intros Hevs. split; try done. by exists evs. Qed.

Lemma frame_send_text r ws text : keeps (frame r ws) (send_text ws text).
Proof.
  intros w. unfold send_text.
  case_decide; simpl; rewrite log_logs; apply frame_logs;
    repeat constructor; by left.
Qed.

Lemma frame_disconnect r ws p : keeps (frame r ws) (disconnect r p).
Proof.
  intros w. rewrite disconnect_run. simpl. split; try done; simpl.
  - intros r' Hne. by rewrite registry_remove_lookup_ne.
  - intros q. unfold members. simpl.
    rewrite registry_remove_default, occurrences_remove. lia.
  - apply registry_remove_no_empty.
  - exists []. split; [by rewrite app_nil_r | constructor].
Qed.

Lemma frame_update_room_code `{OrmSession} r ws c :
  keeps (frame r ws) (update_room_code r c).
Proof.
  intros w. rewrite update_room_code_run.
  assert (Forall (addressed r ws w) [StoreUpdate r c]) as Hev
    by (by repeat constructor).
  destruct (db_up w); [|by apply (frame_logs r ws [_])].
  destruct (rooms w !! r) as [old|] eqn:Hrow; [|by apply (frame_logs r ws [_])].
  simpl. split; try done; simpl.
  - intros r' Hne. by rewrite lookup_insert_ne.
  - rewrite dom_insert_L. apply subseteq_union_1_L, singleton_subseteq_l.
    by apply elem_of_dom_2 in Hrow.
  - by exists [StoreUpdate r c].
Qed.

Section FrameOfHandlers.
Context `{JsonCodec} `{FieldValidators} `{OrmSession}.

Lemma frame_broadcast r ws msg :
  keeps (frame r ws) (broadcast r msg (Some ws)).
Proof.
  intros w. rewrite broadcast_run.
  destruct (active_connections w !! r) as [conns|] eqn:Hr;
    [|apply frame_refl].
  simpl. split; try done; simpl.
  - intros r' Hne. by rewrite remove_each_lookup_ne.
  - intros p. unfold members. simpl.
    rewrite remove_each_default, occurrences_remove_all. lia.
  - apply remove_each_no_empty.
  - eexists. split; [done|]. apply Forall_forall.
    intros [p| p text ok| |r' c] He; simpl;
      try (unfold send_events in He;
           by apply list_elem_of_fmap in He as (? & ? & ?)).
    apply send_events_target in He as (Hp & _ & _).
    right. unfold members. by rewrite Hr.
Qed.

Lemma frame_dispatch r ws msg : keeps (frame r ws) (dispatch r ws msg).
Proof.
  pose proof (frame_refl r ws) as Hrefl.
  pose proof (frame_trans r ws) as Htrans.
  unfold dispatch. case_decide; [|apply frame_send_text].
  destruct (code msg) as [c|]; [|apply frame_send_text].
  apply keeps_try_except; [done| |].
  - apply keeps_bind; [done|apply frame_update_room_code|].
    intros [row|]; [apply frame_broadcast | apply frame_send_text].
  - intros e k [= <-]. apply frame_send_text.
Qed.

Lemma frame_loop_body r ws data : keeps (frame r ws) (loop_body r ws data).
Proof.
  pose proof (frame_refl r ws) as Hrefl.
  pose proof (frame_trans r ws) as Htrans.
  apply keeps_try_except; [done| |].
  - apply keeps_bind; [done| |].
    + destruct (json_loads data); [by apply keeps_ret | by apply keeps_raise].
    + intros v. apply keeps_bind; [done| |intros msg; apply frame_dispatch].
      unfold parse_message, WebSocketMessage_init.
      destruct v; try by apply keeps_raise.
      destruct (validate_message items);
        [by apply keeps_ret | by apply keeps_raise].
  - intros e k Hk. destruct e; try done;
      injection Hk as <-; apply frame_send_text.
Qed.

Lemma frame_receive_loop r ws inbound :
  keeps (frame r ws) (receive_loop r ws inbound).
Proof.
  pose proof (frame_refl r ws) as Hrefl.
  pose proof (frame_trans r ws) as Htrans.
  induction inbound as [|[data|e] rest IH]; simpl.
  - by apply keeps_ret.
  - apply keeps_bind; [done|apply frame_loop_body|done].
  - by apply keeps_raise.
Qed.

Lemma frame_resume r ws inbound : keeps (frame r ws) (resume ws r inbound).
Proof.
  pose proof (frame_refl r ws) as Hrefl.
  pose proof (frame_trans r ws) as Htrans.
  apply keeps_try_except; [done|apply frame_receive_loop|].
  intros e k Hk.
  assert (k = bind (disconnect r ws) (λ _, ret Returned)) as ->
    by (destruct e; congruence).
  apply keeps_bind; [done|apply frame_disconnect|].
  intros _. by apply keeps_ret.
Qed.

(** X17.  Whatever frames a session of a room sends, and however its
    coroutine ends, no session is added to any list: the lists of the other
    rooms are as before, no session of the room has more listings than
    before, and no room is left listed without a session. *)
Theorem frames_never_register_anybody
    (w : World) (ws : WebSocket) (room_id : string) (inbound : list Inbound) :
  (∀ r, r ≠ room_id →
        active_connections (snd (resume ws room_id inbound w)) !! r
        = active_connections w !! r)
  ∧ (∀ p, occurrences p (members room_id (snd (resume ws room_id inbound w)))
          ≤ occurrences p (members room_id w))
  ∧ (no_empty_room (active_connections w) →
     no_empty_room (active_connections (snd (resume ws room_id inbound w)))).
Proof. by destruct (frame_resume room_id ws inbound w). Qed.

(** X18.  Whatever frames a session of a room sends, every call they cause
    is a send to that session, a send to a session listed in that room when
    the frames arrived, or a store update of that room: nothing is sent
    into another room, nobody is accepted or closed. *)
Theorem frames_reach_their_room_only
    (w : World) (ws : WebSocket) (room_id : string) (inbound : list Inbound) :
  ∃ evs,
    trace (snd (resume ws room_id inbound w)) = trace w ++ evs
    ∧ ∀ e, e ∈ evs →
        (∃ p text ok, e = Send p text ok ∧ (p = ws ∨ p ∈ members room_id w))
        ∨ (∃ c, e = StoreUpdate room_id c).
Proof.
  destruct (frame_resume room_id ws inbound w) as [_ _ _ _ _ _ _ (evs & Ht & Ha)].
  exists evs. split; [done|]. intros e He.
  rewrite Forall_forall in Ha. specialize (Ha e He).
  destruct e as [p| p text ok| |r c]; simpl in Ha; try done.
  - left. by exists p, text, ok.
  - right. exists c. by rewrite Ha.
Qed.

(** X19.  Whatever frames a session of a room sends, the code of every
    other room is as before, no row is made or dropped, and the health of
    the transports and of the database is not touched. *)
Theorem frames_write_their_room_only
    (w : World) (ws : WebSocket) (room_id : string) (inbound : list Inbound) :
  (∀ r, r ≠ room_id →
        rooms (snd (resume ws room_id inbound w)) !! r = rooms w !! r)
  ∧ dom (rooms (snd (resume ws room_id inbound w))) = dom (rooms w)
  ∧ broken (snd (resume ws room_id inbound w)) = broken w
  ∧ db_up (snd (resume ws room_id inbound w)) = db_up w.
Proof. by destruct (frame_resume room_id ws inbound w). Qed.

End FrameOfHandlers.

(** * Further properties of the dispatch *)

Section MoreDispatch.
Context `{JsonCodec} `{FieldValidators} `{OrmSession}.

Lemma dispatch_returns room_id ws msg w :
  ws ∉ broken w → fst (dispatch room_id ws msg w) = Ret ().
Proof.
  intros Hok. unfold dispatch.
  case_decide; [|by rewrite send_text_ok].
  destruct (code msg) as [c|]; [|by rewrite send_text_ok].
  unfold try_except, except_Exception. rewrite bind_run, update_room_code_run.
  destruct (db_up w); [|by rewrite send_text_ok].
  destruct (rooms w !! room_id).
  - cbv zeta iota beta. rewrite broadcast_run.
    by destruct (active_connections _ !! room_id).
  - by rewrite send_text_ok.
Qed.

Lemma loop_body_loads_validation_error room_id ws data w :
  json_loads data = None →
  json_loads_error data = ValidationError →
  loop_body room_id ws data w
  = send_text ws (json_dumps (error_message "Invalid message format")) w.
Proof.
  intros Hloads Herr. unfold loop_body, try_except, bind.
  rewrite Hloads, Herr. done.
Qed.

Lemma loop_body_returns room_id ws data w :
  ws ∉ broken w →
  (∀ v, json_loads data = Some v → ∃ kwargs, v = JObj kwargs) →
  (json_loads data = None →
   json_loads_error data = JSONDecodeError
   ∨ json_loads_error data = ValidationError) →
  fst (loop_body room_id ws data w) = Ret ().
Proof.
  intros Hok Hobj Herr. destruct (json_loads data) as [v|] eqn:Hloads.
  - destruct (Hobj v eq_refl) as [kwargs ->].
    destruct (validate_message kwargs) as [msg|] eqn:Hval.
    + rewrite (loop_body_parsed _ _ _ kwargs msg) by done.
      by apply dispatch_returns.
    + rewrite (loop_body_invalid _ _ _ kwargs) by done. by rewrite send_text_ok.
  - destruct (Herr eq_refl) as [Hj|Hv].
    + rewrite loop_body_not_json by done. by rewrite send_text_ok.
    + rewrite loop_body_loads_validation_error by done.
      by rewrite send_text_ok.
Qed.

(** X20.  An iteration of the receive loop raises, and so ends the
    session, in three cases only: the frame is JSON that is not an object
    ([TypeError]); a reply to the sender was refused by the sender's own
    transport ([RuntimeError]); or [json.loads] itself raised something
    that is not a [JSONDecodeError], which is then the exception of the
    iteration.  No other frame, and no failure of the store or of another
    session's transport, ends the session. *)
Theorem iteration_raises_in_three_cases_only
    (w w' : World) (room_id : string) (ws : WebSocket) (data : string)
    (e : Exn) :
  loop_body room_id ws data w = (Raise e, w') →
  (e = TypeError
   ∧ ∃ v, json_loads data = Some v ∧ ∀ kwargs, v ≠ JObj kwargs)
  ∨ (e = RuntimeError ∧ ws ∈ broken w)
  ∨ (json_loads data = None
     ∧ e = json_loads_error data
     ∧ e ≠ JSONDecodeError
     ∧ e ≠ ValidationError).
Proof.
  intros Hraise.
  assert (ws ∉ broken w →
          (∀ v, json_loads data = Some v → ∃ kwargs, v = JObj kwargs) →
          (json_loads data = None →
           json_loads_error data = JSONDecodeError
           ∨ json_loads_error data = ValidationError) →
          False) as Hreturns.
  { intros Hok Hobj Herr.
    pose proof (loop_body_returns room_id ws data w Hok Hobj Herr) as Hret.
    by rewrite Hraise in Hret. }
  destruct (json_loads data) as [v|] eqn:Hloads.
  - destruct v as [| | | | | |kwargs];
      try (left; rewrite (loop_body_not_a_dict _ _ _ _ w Hloads) in Hraise
             by done;
           injection Hraise as <- _; split; [done|]; eexists; by split).
    right; left.
    destruct (decide (ws ∈ broken w)) as [Hbk|Hok].
    + split; [|done].
      destruct (validate_message kwargs) as [msg|] eqn:Hval.
      * rewrite (loop_body_parsed _ _ _ kwargs msg) in Hraise by done.
        by apply dispatch_raises in Hraise.
      * rewrite (loop_body_invalid _ _ _ kwargs) in Hraise by done.
        by apply send_text_raises in Hraise.
    + exfalso. apply Hreturns; [done| |done].
      intros v' [= <-]. by eexists.
  - right.
    destruct (decide (json_loads_error data = JSONDecodeError)) as [Hj|Hj];
      [|destruct (decide (json_loads_error data = ValidationError))
          as [Hv|Hv]].
    + left. destruct (decide (ws ∈ broken w)) as [Hbk|Hok].
      * split; [|done]. rewrite loop_body_not_json in Hraise by done.
        by apply send_text_raises in Hraise.
      * exfalso. apply Hreturns; [done|done|]. intros _. by left.
    + left. destruct (decide (ws ∈ broken w)) as [Hbk|Hok].
      * split; [|done].
        rewrite loop_body_loads_validation_error in Hraise by done.
        by apply send_text_raises in Hraise.
      * exfalso. apply Hreturns; [done|done|]. intros _. by right.
    + right. rewrite loop_body_loads_raises in Hraise by done.
      injection Hraise as <- _. done.
Qed.

(** X31.  A frame on which [json.loads] raises something other than
    [JSONDecodeError] ends the session like a frame that is not an object:
    the exception reaches the outer handler, the sender is sent nothing and
    is deregistered, the coroutine returns and the frames behind it are
    never read. *)
Theorem loads_failure_other_than_decode_ends_session
    (w : World) (room_id : string) (ws : WebSocket) (data : string)
    (rest : list Inbound) :
  json_loads data = None →
  json_loads_error data ≠ JSONDecodeError →
  json_loads_error data ≠ ValidationError →
  loop_body room_id ws data w = (Raise (json_loads_error data), w)
  ∧ resume ws room_id (Text data :: rest) w
    = (Ret Returned,
       set_connections
         (registry_remove room_id ws (active_connections w)) w)
  ∧ trace (snd (resume ws room_id (Text data :: rest) w)) = trace w.
Proof.
  intros Hloads Hj Hv.
  assert (loop_body room_id ws data w = (Raise (json_loads_error data), w))
    as Hbody by (by apply loop_body_loads_raises).
  assert (resume ws room_id (Text data :: rest) w
          = (Ret Returned,
             set_connections
               (registry_remove room_id ws (active_connections w)) w))
    as Hresume.
  { unfold resume, session_guard, try_except. cbn [receive_loop].
    rewrite bind_run, Hbody. by destruct (json_loads_error data). }
  split; [done|]. split; [done|]. by rewrite Hresume.
Qed.




(** X24.  A newcomer gets the row the last update returned: after a
    [code_update] has gone through the store, a client that opens the room
    over a working transport is sent an [initial_state] carrying the code
    of the row [update_room_code] handed back, which is the code of the
    update whenever the sender's session flushed it. *)
Theorem newcomer_gets_row_of_last_update
    (w w1 : World) (room_id : string) (ws newcomer : WebSocket)
    (data : string) (kwargs : list (string * json)) (msg : WebSocketMessage)
    (c row : string) :
  json_loads data = Some (JObj kwargs) →
  validate_message kwargs = Some msg →
  type msg = "code_update" →
  code msg = Some c →
  update_room_code room_id c w = (Ret (Some row), w1) →
  newcomer ∉ broken w →
  (∃ w2,
     websocket_endpoint newcomer room_id []
       (snd (loop_body room_id ws data w))
     = (Ret Awaiting, w2)
     ∧ trace w2
       = trace (snd (loop_body room_id ws data w))
         ++ [Accept newcomer;
             Send newcomer
               (json_dumps (JObj [("type", JStr "initial_state");
                                  ("code", JStr row);
                                  ("roomId", JStr room_id)]))
               true])
  ∧ (flushes_code (log (StoreUpdate room_id c) w) room_id c = true →
     row = c).
Proof.
  intros Hloads Hval Htype Hcode Hupd Hok.
  rewrite (loop_body_parsed _ _ _ kwargs msg) by done.
  rewrite (dispatch_update _ _ _ c row w w1) by done.
  rewrite update_room_code_run in Hupd.
  destruct (db_up w) eqn:Hdb; [|done].
  destruct (rooms w !! room_id) as [stored|]; [|done].
  cbv zeta in Hupd. injection Hupd as Hrow <-.
  split; [|intros Hflush; by rewrite Hflush in Hrow].
  rewrite Hrow.
  pose proof (frame_broadcast room_id ws
                (code_update_message c (timestamp msg))
                (set_rooms (<[room_id:=row]> (rooms w))
                   (log (StoreUpdate room_id c) w)))
    as [Hbk Hup _ _ _ _ _ _].
  assert (rooms (snd (broadcast room_id (code_update_message c (timestamp msg))
                        (Some ws)
                        (set_rooms (<[room_id:=row]> (rooms w))
                           (log (StoreUpdate room_id c) w)))) !! room_id
          = Some row) as Hstored.
  { rewrite broadcast_run. destruct (active_connections _ !! room_id);
      simpl; by rewrite lookup_insert_eq. }
  eexists. split.
  - apply (websocket_endpoint_join newcomer room_id row); [|done|].
    + by rewrite Hup.
    + by rewrite Hbk.
  - simpl. by rewrite <- app_assoc.
Qed.

(** X32.  A [code_update] that the sender's session does not flush is
    still broadcast: the iteration ends normally, every other listed
    session with a working transport is sent the sender's code, and the
    table keeps the code it had, which is what [get_room] goes on
    answering.  What the room shows its sessions and what the store holds
    then differ. *)
Theorem unflushed_update_is_broadcast_not_stored
    (w : World) (room_id : string) (ws peer : WebSocket) (data : string)
    (kwargs : list (string * json)) (msg : WebSocketMessage)
    (c stored : string) :
  json_loads data = Some (JObj kwargs) →
  validate_message kwargs = Some msg →
  type msg = "code_update" →
  code msg = Some c →
  db_up w = true →
  rooms w !! room_id = Some stored →
  flushes_code (log (StoreUpdate room_id c) w) room_id c = false →
  peer ∈ members room_id w →
  peer ≠ ws →
  peer ∉ broken w →
  fst (loop_body room_id ws data w) = Ret ()
  ∧ Send peer
      (json_dumps
         (JObj [("type", JStr "code_update");
                ("code", JStr c);
                ("timestamp", match timestamp msg with
                              | Some z => JInt z
                              | None => JNull
                              end)])) true
    ∈ trace (snd (loop_body room_id ws data w))
  ∧ rooms (snd (loop_body room_id ws data w)) = rooms w
  ∧ get_room room_id (snd (loop_body room_id ws data w))
    = (Ret (Some stored), snd (loop_body room_id ws data w)).
Proof.
  intros Hloads Hval Htype Hcode Hdb Hrow Hflush Hpeer Hne Hok.
  rewrite (loop_body_parsed _ _ _ kwargs msg) by done.
  assert (update_room_code room_id c w
          = (Ret (Some stored),
             set_rooms (<[room_id := stored]> (rooms w))
               (log (StoreUpdate room_id c) w))) as Hupd.
  { rewrite update_room_code_run, Hdb, Hrow. cbv zeta. by rewrite Hflush. }
  rewrite (dispatch_update _ _ _ c stored w _ Htype Hcode Hupd).
  unfold code_update_message, json_of_timestamp.
  rewrite insert_id by done.
  rewrite broadcast_run. cbn [active_connections set_rooms log].
  unfold members in Hpeer.
  destruct (active_connections w !! room_id) as [conns|] eqn:Hr;
    [|by apply not_elem_of_nil in Hpeer].
  simpl in Hpeer. cbn [fst snd].
  split; [done|]. split.
  - cbn [trace set_connections logs set_rooms log broken].
    apply elem_of_app. right.
    apply send_events_delivered; [done|congruence|done].
  - split; [done|]. rewrite get_room_run.
    cbn [db_up rooms set_connections logs set_rooms log].
    by rewrite Hdb, Hrow.
Qed.

End MoreDispatch.

(** * Sessions and coroutines *)

Section Tasks.
Context `{JsonCodec} `{FieldValidators} `{OrmSession}.

Lemma receive_loop_ret r ws inbound w st w' :
  receive_loop r ws inbound w = (Ret st, w') → st = Awaiting.
Proof.
  revert w. induction inbound as [|[data|e] rest IH]; intros w; simpl.
  - unfold ret. congruence.
  - rewrite bind_run. destruct (loop_body r ws data w) as [[[]|e] w1]; [|done].
    apply IH.
  - done.
Qed.

(** A resumed coroutine is suspended again, or has returned through
    [disconnect]; either way it has only done what a frame may do. *)
Lemma resume_cases r ws inbound w :
  frame r ws w (snd (resume ws r inbound w))
  ∧ (fst (resume ws r inbound w) = Ret Awaiting
     ∨ (fst (resume ws r inbound w) = Ret Returned
        ∧ ∀ q, occurrences q (members r (snd (resume ws r inbound w)))
               ≤ occurrences q (members r w)
                 - (if decide (q = ws) then 1 else 0))).
Proof.
  split; [apply frame_resume|].
  pose proof (frame_receive_loop r ws inbound w) as Hframe.
  unfold resume, session_guard, try_except.
  destruct (receive_loop r ws inbound w) as [[st|e] w1] eqn:Hloop.
  - left. apply receive_loop_ret in Hloop as ->. done.
  - right. simpl in Hframe.
    assert (∀ q, occurrences q (members r (snd (disconnect r ws w1)))
                 ≤ occurrences q (members r w)
                   - (if decide (q = ws) then 1 else 0)) as Hocc.
    { intros q. rewrite members_disconnect, occurrences_remove.
      pose proof (frame_listings _ _ _ _ Hframe q). lia. }
    by destruct e.
Qed.

Lemma websocket_endpoint_open_cases ws r w :
  (fst (websocket_endpoint ws r [] w) = Ret Awaiting
   ∧ active_connections (snd (websocket_endpoint ws r [] w))
     = registry_add r ws (active_connections w))
  ∨ (fst (websocket_endpoint ws r [] w) ≠ Ret Awaiting
     ∧ active_connections (snd (websocket_endpoint ws r [] w))
       = active_connections w).
Proof.
  unfold websocket_endpoint. rewrite bind_run, room_exists_run.
  destruct (db_up w); [|by right].
  case_bool_decide; simpl.
  - rewrite bind_run, connect_run. case_decide as Hbk; [by right|].
    left. unfold session_guard, try_except. rewrite bind_run.
    by rewrite send_initial_state_alive.
  - right. rewrite bind_run. unfold close. by case_decide.
Qed.

Lemma sessions_are_tasks_same s w' :
  sessions_are_tasks s →
  active_connections w' = active_connections (world s) →
  sessions_are_tasks (mkSystem w' (tasks s)).
Proof.
  intros [Hinv Hlisted] Hac. split; simpl; [by rewrite Hac|].
  intros r p. unfold members. rewrite Hac. apply Hlisted.
Qed.

Lemma sessions_are_tasks_join s ws r w' :
  sessions_are_tasks s →
  ws ∉ dom (tasks s) →
  active_connections w' = registry_add r ws (active_connections (world s)) →
  sessions_are_tasks (mkSystem w' (<[ws := r]> (tasks s))).
Proof.
  intros [Hinv Hlisted] Htask Hac.
  assert (∀ r', ws ∉ members r' (world s)) as Hnew.
  { intros r' Hin. apply Hlisted in Hin as [Hin _].
    apply Htask, elem_of_dom. by eexists. }
  split; simpl; [rewrite Hac; by apply registry_add_no_empty|].
  intros r' p. unfold members. rewrite Hac.
  destruct (decide (r = r')) as [<-|Hne].
  - rewrite registry_add_lookup. simpl. rewrite occurrences_app.
    cbn [occurrences].
    intros [Hp|Hp%list_elem_of_singleton]%elem_of_app.
    + apply Hlisted in Hp as Hp'. destruct Hp' as [Hp1 Hp2].
      assert (p ≠ ws) as Hpw by (intros ->; by apply (Hnew r)).
      rewrite lookup_insert_ne, decide_False by done.
      split; [done|]. unfold members in Hp2. lia.
    + subst p. rewrite lookup_insert_eq, decide_True by done.
      split; [done|]. specialize (Hnew r).
      apply occurrences_zero in Hnew. unfold members in Hnew. lia.
  - rewrite registry_add_lookup_ne by done. intros Hp.
    apply Hlisted in Hp as Hp'. destruct Hp' as [Hp1 Hp2].
    assert (p ≠ ws) as Hpw by (intros ->; by apply (Hnew r')).
    by rewrite lookup_insert_ne.
Qed.

Lemma sessions_are_tasks_resume s ws r i :
  sessions_are_tasks s →
  tasks s !! ws = Some r →
  sessions_are_tasks
    (match resume ws r [i] (world s) with
     | (Ret Awaiting, w') => mkSystem w' (tasks s)
     | (_, w') => mkSystem w' (delete ws (tasks s))
     end).
Proof.
  intros [Hinv Hlisted] Htask.
  destruct (resume_cases r ws [i] (world s)) as [Hframe Hcases].
  assert (∀ r' p, p ∈ members r' (snd (resume ws r [i] (world s))) →
                  p ∈ members r' (world s)
                  ∧ occurrences p (members r' (snd (resume ws r [i] (world s))))
                    = 1) as Hstill.
  { intros r' p Hp. destruct (decide (r' = r)) as [->|Hne].
    - pose proof (frame_listings _ _ _ _ Hframe p) as Hle.
      apply occurrences_elem_of in Hp as Hpos.
      assert (p ∈ members r (world s)) as Hbefore
        by (apply occurrences_elem_of; lia).
      split; [done|]. apply Hlisted in Hbefore as [_ Hone]. lia.
    - unfold members in *.
      rewrite (frame_other_rooms _ _ _ _ Hframe r') in * by done.
      split; [done|]. by apply Hlisted in Hp as [_ ?]. }
  pose proof (frame_no_empty _ _ _ _ Hframe Hinv) as Hinv'.
  destruct (resume ws r [i] (world s)) as [res w'].
  simpl in Hstill, Hinv', Hcases.
  destruct Hcases as [->|[-> Hgone]].
  - split; [done|]. simpl. intros r' p Hp.
    destruct (Hstill r' p Hp) as [Hbefore Hone].
    split; [by apply Hlisted in Hbefore as [? _] | done].
  - split; [done|]. simpl. intros r' p Hp.
    destruct (Hstill r' p Hp) as [Hbefore Hone].
    apply Hlisted in Hbefore as Hb. destruct Hb as [Hb1 Hb2].
    split; [|done].
    assert (p ≠ ws) as Hpw.
    { intros ->. assert (r' = r) as -> by congruence.
      specialize (Hgone ws). rewrite decide_True in Hgone by done. lia. }
    by rewrite lookup_delete_ne.
Qed.

Lemma step_sessions_are_tasks a s :
  sessions_are_tasks s → sessions_are_tasks (step a s).
Proof.
  intros Hs. destruct a as [ws r|ws i|r|bk|up]; simpl.
  - case_decide as Htask; [done|].
    destruct (websocket_endpoint_open_cases ws r (world s))
      as [[Hres Hac]|[Hres Hac]];
      destruct (websocket_endpoint ws r [] (world s)) as [res w'];
      simpl in Hres, Hac.
    + subst res. by apply sessions_are_tasks_join.
    + assert (match res with
              | Ret Awaiting => mkSystem w' (<[ws:=r]> (tasks s))
              | _ => mkSystem w' (tasks s)
              end = mkSystem w' (tasks s)) as ->
        by (by destruct res as [[|]|e]).
      by apply sessions_are_tasks_same.
  - destruct (tasks s !! ws) as [r|] eqn:Htask; [|done].
    by apply sessions_are_tasks_resume.
  - destruct (db_up (world s) && bool_decide (rooms (world s) !! r = None));
      [|done].
    by apply sessions_are_tasks_same.
  - by apply sessions_are_tasks_same.
  - by apply sessions_are_tasks_same.
Qed.

Lemma reachable_sessions_are_tasks s : reachable s → sessions_are_tasks s.
Proof.
  intros (rs & acts & ->). unfold run.
  induction acts as [|a acts IH] using rev_ind.
  - split; [by intros r conns; simpl; rewrite lookup_empty|].
    intros r p. unfold members. simpl. rewrite lookup_empty. simpl.
    by intros ?%not_elem_of_nil.
  - rewrite foldl_app. simpl. by apply step_sessions_are_tasks.
Qed.

(** X25.  In every state the server reaches, each session found in the
    dictionary is served by a coroutine suspended on that very room and is
    listed exactly once, and no room is listed without a session: a
    coroutine that has ended leaves no listing behind. *)
Theorem registered_sessions_are_live_and_listed_once
    (s : System) (room_id : string) (ws : WebSocket) :
  reachable s →
  no_empty_room (active_connections (world s))
  ∧ (ws ∈ members room_id (world s) →
     tasks s !! ws = Some room_id
     ∧ occurrences ws (members room_id (world s)) = 1).
Proof.
  intros Hreach. apply reachable_sessions_are_tasks in Hreach as [Hinv Hlisted].
  split; [done|]. apply Hlisted.
Qed.

(** X26.  In every state the server reaches, a second [disconnect] of a
    session changes nothing after the first: the clean-up of a broadcast
    and the handler of the receive loop can both deregister a session
    without harm. *)
Theorem double_disconnect_is_harmless_in_the_server
    (s : System) (room_id : string) (ws : WebSocket) :
  reachable s →
  disconnect room_id ws (snd (disconnect room_id ws (world s)))
  = (Ret (), snd (disconnect room_id ws (world s))).
Proof.
  intros Hreach. apply reachable_sessions_are_tasks in Hreach as [Hinv Hlisted].
  apply disconnect_absent.
  - rewrite disconnect_run. by apply registry_remove_no_empty.
  - apply occurrences_zero.
    rewrite members_disconnect, occurrences_remove, decide_True by done.
    destruct (decide (ws ∈ members room_id (world s))) as [Hin|Hout].
    + apply Hlisted in Hin as [_ ->]. done.
    + apply occurrences_zero in Hout. lia.
Qed.

End Tasks.

(** * The suggestion service *)

Section Suggestions.
Import autocomplete_service.
Context `{StrLower}.

(** X27.  Whatever the code, the cursor and the language, the confidence
    [generate_suggestion] returns lies between 0.30 and 0.95; the bounds of
    the response model always accept it, so [POST /autocomplete] answers
    with the suggestion and never with status 400. *)
Theorem confidence_always_passes_the_response_model
    (request : AutocompleteRequest) :
  let result :=
    generate_suggestion (request_code request) (cursorPosition request)
      (language request) in
  30 ≤ snd result ≤ 95
  ∧ autocomplete_router.get_autocomplete_suggestion request
    = AutocompleteResponse (fst result) (snd result).
Proof.
  intros result.
  assert (30 ≤ snd result ≤ 95) as Hbounds.
  { unfold result, generate_suggestion, _generate_ai_mock_suggestion,
      _generate_python_suggestion, _generate_javascript_suggestion,
      _generate_generic_suggestion.
    repeat match goal with
           | |- context [if ?b then _ else _] => destruct b
           end; simpl; lia. }
  split; [done|].
  unfold autocomplete_router.get_autocomplete_suggestion.
  fold result. destruct result as [suggestion confidence]. simpl in *.
  unfold autocomplete_router.AutocompleteResponse_init.
  rewrite decide_True; [done | lia].
Qed.

End Suggestions.

(** ** Strings *)

Section Strings.
Import autocomplete_service.

Lemma lstrip_head s c t : lstrip s = c :: t → isspace c = false.
Proof.
  induction s as [|a s IH]; simpl; [done|].
  destruct (isspace a) eqn:Ha; [done|]. by intros [= <- _].
Qed.

Lemma lstrip_nil s : lstrip s = [] ↔ Forall (λ c, isspace c = true) s.
Proof.
  induction s as [|a s IH]; simpl; [by split|].
  destruct (isspace a) eqn:Ha.
  - rewrite IH. split; [by constructor | by inversion 1].
  - split; [done|]. inversion 1. congruence.
Qed.

Lemma rstrip_nil s : rstrip s = [] ↔ Forall (λ c, isspace c = true) s.
Proof.
  unfold rstrip. rewrite <- (Forall_reverse _ s), <- lstrip_nil.
  split; [|by intros ->].
  intros Hrev. apply (f_equal reverse) in Hrev.
  by rewrite reverse_involutive in Hrev.
Qed.

Lemma strip_nil s : strip s = [] ↔ Forall (λ c, isspace c = true) s.
Proof.
  unfold strip. rewrite rstrip_nil. split.
  - intros Hall. apply lstrip_nil.
    destruct (lstrip s) as [|c t] eqn:Hl; [done|].
    apply lstrip_head in Hl. inversion Hall. congruence.
  - intros Hall. apply lstrip_nil in Hall. by rewrite Hall.
Qed.

Lemma startswith_cons a prefix s :
  startswith (a :: prefix) s = true → ∃ t, s = a :: t.
Proof.
  destruct s as [|c t]; simpl; [done|].
  intros [Hc _]%andb_true_iff. apply bool_decide_eq_true in Hc as ->.
  by eexists.
Qed.

(** What [strip] returns never ends with white space. *)
Lemma endswith_strip suffix s c t :
  reverse suffix = c :: t → isspace c = true →
  endswith suffix (strip s) = false.
Proof.
  intros Hsuf Hc. unfold endswith, strip, rstrip.
  rewrite Hsuf, reverse_involutive.
  destruct (startswith _ _) eqn:Hstart; [|done].
  apply startswith_cons in Hstart as [u Hu].
  apply lstrip_head in Hu. congruence.
Qed.

Lemma contains_cons a sub s : contains (a :: sub) s = true → a ∈ s.
Proof.
  induction s as [|c s IH]; simpl.
  - done.
  - intros [[Hc _]%andb_true_iff|Hrest]%orb_true_iff.
    + apply bool_decide_eq_true in Hc as ->. left.
    + right. by apply IH.
Qed.

Lemma blank_has_no_visible a sub s :
  isspace a = false →
  Forall (λ c, isspace c = true) s →
  contains (a :: sub) s = false.
Proof.
  intros Ha Hall. destruct (contains (a :: sub) s) eqn:Hc; [|done].
  apply contains_cons in Hc. rewrite Forall_forall in Hall.
  apply Hall in Hc. congruence.
Qed.

(** The test that sends a line to the mock suggestion fails on a line that
    strips to nothing or to a [//] comment, and on no other. *)
Lemma gate_closed s :
  bool_decide (0 < length s) && negb (startswith (lit "//") s) = false →
  s = [] ∨ ∃ t, s = 47%N :: 47%N :: t.
Proof.
  change (lit "//") with [47%N; 47%N].
  destruct s as [|a [|b t]]; [by left| |]; cbn [startswith length].
  - rewrite bool_decide_true by lia. by rewrite andb_false_r.
  - rewrite bool_decide_true by lia. rewrite andb_true_r. cbn [andb].
    intros [Ha Hb]%negb_false_iff%andb_true_iff.
    apply bool_decide_eq_true in Ha as <-, Hb as <-. right. by eexists.
Qed.

Lemma slice_to_clamped code stop :
  slice_to code stop
  = take (Z.to_nat (effective_cursor code stop)) code.
Proof.
  unfold slice_to, effective_cursor.
  destruct (decide (0 ≤ stop)%Z) as [Hpos|Hneg].
  - rewrite decide_False by lia.
    destruct (decide (stop ≤ Z.of_nat (length code))%Z).
    + by rewrite Z.min_l.
    + rewrite Z.min_r, Nat2Z.id by lia.
      by rewrite !take_ge by lia.
  - rewrite decide_True by lia.
    destruct (decide (0 ≤ Z.of_nat (length code) + stop)%Z).
    + by rewrite Z.max_r.
    + rewrite Z.max_l by lia.
      by replace (Z.to_nat (Z.of_nat (length code) + stop)) with 0 by lia.
Qed.

End Strings.

Section MoreSuggestions.
Import autocomplete_service.
Context `{StrLower}.

Lemma before_cursor code cursor :
  (if decide (cursor ≤ Z.of_nat (length code))%Z
   then slice_to code cursor else code)
  = take (Z.to_nat (effective_cursor code cursor)) code.
Proof.
  case_decide as Hin; [apply slice_to_clamped|].
  unfold effective_cursor. rewrite decide_False by lia.
  rewrite Z.min_r, Nat2Z.id by lia. by rewrite take_ge.
Qed.

Lemma effective_cursor_range code cursor :
  (0 ≤ effective_cursor code cursor ≤ Z.of_nat (length code))%Z.
Proof. unfold effective_cursor. case_decide; lia. Qed.

Lemma effective_cursor_idemp code cursor :
  effective_cursor code (effective_cursor code cursor)
  = effective_cursor code cursor.
Proof.
  pose proof (effective_cursor_range code cursor) as Hrange.
  unfold effective_cursor at 1. rewrite decide_False by lia. lia.
Qed.

(** X28.  A cursor position outside the code is brought back into it: past
    the end it counts as the end, and a negative one counts from the end,
    stopping at the start.  The suggestion is the one for that position. *)
Theorem cursor_out_of_range_is_clamped
    (code : pystr) (cursor_position : Z) (language : pystr) :
  generate_suggestion code cursor_position language
  = generate_suggestion code (effective_cursor code cursor_position) language.
Proof.
  unfold generate_suggestion.
  by rewrite !before_cursor, effective_cursor_idemp.
Qed.

(** X29.  Five suggestions written in the service are never returned by
    [generate_suggestion], whatever the code, the cursor and the language:
    the rules for [def], [class], [import], [from], [const], [let] and
    [var] need a line that the mock suggestion has already taken, and the
    JavaScript rule for a line ending in [return] and a blank looks at a
    stripped line, which never ends in a blank. *)
Theorem five_suggestions_are_never_returned
    (code : pystr) (cursor_position : Z) (language : pystr) :
  Forall (λ never, fst (generate_suggestion code cursor_position language)
                   ≠ never)
    [lit " os"; lit " typing import"; [newline] ++ lit "    pass";
     lit " value = "; lit "true;"].
Proof.
  apply Forall_forall. intros never Hnever <-. revert Hnever.
  change (fst (generate_suggestion code cursor_position language)
          ∉ [lit " os"; lit " typing import"; [newline] ++ lit "    pass";
             lit " value = "; lit "true;"]).
  unfold generate_suggestion.
  set (line := default (lit "") _).
  destruct (bool_decide (0 < length (strip line))
            && negb (startswith (lit "//") (strip line))) eqn:Hgate.
  - unfold _generate_ai_mock_suggestion.
    repeat match goal with
           | |- context [if ?b then _ else _] => destruct b
           end; compute_done.
  - assert (endswith (lit "return ") (strip line) = false) as Hblank
      by (by apply (endswith_strip _ _ 32%N (reverse (lit "return")))).
    assert (startswith (lit "def ") (strip line) = false
            ∧ startswith (lit "class ") (strip line) = false
            ∧ bool_decide (strip line = lit "import") = false
            ∧ bool_decide (strip line = lit "from") = false
            ∧ bool_decide (strip line = lit "const") = false
            ∧ bool_decide (strip line = lit "let") = false
            ∧ bool_decide (strip line = lit "var") = false)
      as (Hdef & Hclass & Himport & Hfrom & Hconst & Hlet & Hvar).
    { apply gate_closed in Hgate as [->|[t ->]]; repeat split;
        try reflexivity; apply bool_decide_eq_false_2; discriminate. }
    unfold _generate_python_suggestion, _generate_javascript_suggestion,
      _generate_generic_suggestion.
    rewrite Hblank, Hdef, Hclass, Himport, Hfrom, Hconst, Hlet, Hvar.
    cbn [andb].
    repeat match goal with
           | |- context [if ?b then _ else _] => destruct b
           end; compute_done.
Qed.

(** X30.  On a blank line (nothing, or white space only, between the last
    line break and the cursor) the suggestion is the default of the
    language: [pass] for Python, [;] for JavaScript, both with confidence
    0.60, and a TODO comment with confidence 0.50 for any other language. *)
Theorem blank_line_gets_language_default
    (code : pystr) (cursor_position : Z) (language : pystr) :
  strip (line_at_cursor code cursor_position) = [] →
  generate_suggestion code cursor_position language
  = if decide (str_lower language = lit "python") then (lit "pass", 60)
    else if decide (str_lower language ∈ [lit "javascript"; lit "js"])
    then (lit ";", 60)
    else (lit "// TODO: ", 50).
Proof.
  intros Hblank. unfold generate_suggestion.
  change (default (lit "") (last (split newline _)))
    with (line_at_cursor code cursor_position).
  set (line := line_at_cursor code cursor_position) in *.
  assert (rstrip line = []) as Hr by (by apply rstrip_nil, strip_nil).
  assert (contains (lit "if __name__") line = false) as Hname.
  { apply (blank_has_no_visible 105%N); [done | by apply strip_nil]. }
  unfold _generate_python_suggestion, _generate_javascript_suggestion,
    _generate_generic_suggestion.
  rewrite Hblank, Hr, Hname. reflexivity.
Qed.

End MoreSuggestions.

(** * The further properties at work *)

Section MoreExamples.
#[local] Existing Instance wider_codec.
#[local] Existing Instance strict_validators.
#[local] Existing Instance fresh_session.
#[local] Existing Instance ascii_lower.

Lemma broadcast_attempts_every_listing_in_order_witness :
  trace (snd (broadcast "abcd1234" (JStr "hi") (Some 1) example_world))
  = trace example_world
    ++ ((λ c, Send c (json_dumps (JStr "hi"))
                (bool_decide (c ∉ broken example_world)))
          <$> filter (λ c, Some c ≠ Some 1) [1; 2; 3]).
Proof.
  apply (broadcast_attempts_every_listing_in_order
           example_world "abcd1234" (JStr "hi") (Some 1) [1; 2; 3]).
  compute_done.
Defined.

Lemma broadcast_keeps_sessions_it_did_not_fail_witness :
  occurrences 3
    (members "abcd1234"
       (snd (broadcast "abcd1234" (JStr "hi") (Some 1) example_world)))
  = occurrences 3 (members "abcd1234" example_world).
Proof.
  apply (broadcast_keeps_sessions_it_did_not_fail
           example_world "abcd1234" (JStr "hi") (Some 1) "abcd1234" 3).
  left. compute_done.
Defined.

Lemma create_room_adds_one_new_row_witness :
  let w1 := snd (create_room ["abcd1234"; "ffff0000"] example_world) in
  "ffff0000" ∈ ["abcd1234"; "ffff0000"]
  ∧ rooms example_world !! "ffff0000" = None
  ∧ "" = ""
  ∧ rooms w1 = <["ffff0000" := ""]> (rooms example_world)
  ∧ active_connections w1 = active_connections example_world.
Proof.
  intros w1.
  apply (create_room_adds_one_new_row example_world w1
           ["abcd1234"; "ffff0000"] "ffff0000" "").
  compute_done.
Defined.

Lemma create_room_takes_first_unused_id_witness :
  create_room (["abcd1234"] ++ "ffff0000" :: []) example_world
  = (Ret (Some ("ffff0000", "")),
     set_rooms (<["ffff0000" := ""]> (rooms example_world)) example_world).
Proof.
  apply (create_room_takes_first_unused_id
           example_world ["abcd1234"] [] "ffff0000").
  - reflexivity.
  - intros d ->%list_elem_of_singleton. compute_done.
  - compute_done.
Defined.



Lemma join_registers_and_sends_state_witness :
  ∃ w',
    websocket_endpoint 7 "abcd1234" [] example_world = (Ret Awaiting, w')
    ∧ trace w'
      = trace example_world
        ++ [Accept 7;
            Send 7
              (json_dumps (JObj [("type", JStr "initial_state");
                                 ("code", JStr ""); ("roomId", JStr "abcd1234")]))
              true]
    ∧ members "abcd1234" w' = members "abcd1234" example_world ++ [7]
    ∧ (∀ r, r ≠ "abcd1234" →
            active_connections w' !! r = active_connections example_world !! r)
    ∧ rooms w' = rooms example_world.
Proof.
  apply (join_registers_and_sends_state example_world 7 "abcd1234" "");
    compute_done.
Defined.

Lemma join_then_leave_restores_registry_witness :
  ∃ w',
    websocket_endpoint 7 "abcd1234" (Fails WebSocketDisconnect :: [])
      example_world
    = (Ret Returned, w')
    ∧ active_connections w' = active_connections example_world
    ∧ trace w'
      = trace example_world
        ++ [Accept 7;
            Send 7
              (json_dumps (JObj [("type", JStr "initial_state");
                                 ("code", JStr ""); ("roomId", JStr "abcd1234")]))
              true].
Proof.
  apply (join_then_leave_restores_registry
           example_world 7 "abcd1234" "" WebSocketDisconnect []);
    compute_done.
Defined.

Lemma after_init_db_every_join_is_refused_witness :
  fst (init_db example_world) = Ret ()
  ∧ snd (websocket_endpoint 7 "abcd1234" [] (snd (init_db example_world)))
    = log (Close 7 4004%Z "Room not found") (snd (init_db example_world))
  ∧ fst (websocket_endpoint 7 "abcd1234" [] (snd (init_db example_world)))
    ≠ Ret Awaiting.
Proof.
  apply (after_init_db_every_join_is_refused example_world 7 "abcd1234" []).
  reflexivity.
Defined.

Lemma created_room_can_be_joined_witness :
  ∃ w2,
    websocket_endpoint 7 "ffff0000" []
      (snd (create_room ["ffff0000"] example_world))
    = (Ret Awaiting, w2)
    ∧ members "ffff0000" w2 = members "ffff0000" example_world ++ [7]
    ∧ trace w2
      = trace example_world
        ++ [Accept 7;
            Send 7
              (json_dumps (JObj [("type", JStr "initial_state");
                                 ("code", JStr ""); ("roomId", JStr "ffff0000")]))
              true].
Proof.
  apply (created_room_can_be_joined
           example_world (snd (create_room ["ffff0000"] example_world))
           ["ffff0000"] "ffff0000" "" 7);
    compute_done.
Defined.




Lemma newcomer_gets_row_of_last_update_witness :
  (∃ w2,
     websocket_endpoint 7 "abcd1234" []
       (snd (loop_body "abcd1234" 1 (dumps frame_update) example_world))
     = (Ret Awaiting, w2)
     ∧ trace w2
       = trace (snd (loop_body "abcd1234" 1 (dumps frame_update)
                       example_world))
         ++ [Accept 7;
             Send 7
               (json_dumps (JObj [("type", JStr "initial_state");
                                  ("code", JStr "x=1");
                                  ("roomId", JStr "abcd1234")]))
               true])
  ∧ (flushes_code (log (StoreUpdate "abcd1234" "x=1") example_world)
       "abcd1234" "x=1" = true →
     "x=1" = "x=1").
Proof.
  apply (newcomer_gets_row_of_last_update
           example_world
           (snd (update_room_code "abcd1234" "x=1" example_world))
           "abcd1234" 1 7 (dumps frame_update)
           [("type", JStr "code_update"); ("code", JStr "x=1");
            ("timestamp", JInt 42)]
           (mkWebSocketMessage "code_update" (Some "x=1") (Some 42%Z)
              None None)
           "x=1" "x=1");
    compute_done.
Defined.

Lemma registered_sessions_are_live_and_listed_once_witness :
  no_empty_room (active_connections (world example_system))
  ∧ (1 ∈ members "abcd1234" (world example_system) →
     tasks example_system !! 1 = Some "abcd1234"
     ∧ occurrences 1 (members "abcd1234" (world example_system)) = 1).
Proof.
  apply (@registered_sessions_are_live_and_listed_once
           example_codec strict_validators fresh_session example_system "abcd1234" 1).
  exists {["abcd1234" := ""]}, [ClientConnects 1 "abcd1234"]. reflexivity.
Defined.

Lemma double_disconnect_is_harmless_in_the_server_witness :
  disconnect "abcd1234" 1
    (snd (disconnect "abcd1234" 1 (world example_system)))
  = (Ret (), snd (disconnect "abcd1234" 1 (world example_system))).
Proof.
  apply (@double_disconnect_is_harmless_in_the_server
           example_codec strict_validators fresh_session example_system "abcd1234" 1).
  exists {["abcd1234" := ""]}, [ClientConnects 1 "abcd1234"]. reflexivity.
Defined.

Lemma blank_line_gets_language_default_witness :
  let code := lit "x = 1" ++ [autocomplete_service.newline] ++ lit "   " in
  autocomplete_service.generate_suggestion code 9 (lit "Python")
  = if decide (str_lower (lit "Python") = lit "python") then (lit "pass", 60)
    else if decide (str_lower (lit "Python") ∈ [lit "javascript"; lit "js"])
    then (lit ";", 60)
    else (lit "// TODO: ", 50).
Proof.
  intros code.
  apply (blank_line_gets_language_default code 9 (lit "Python")).
  compute_done.
Defined.

(** The same line in three languages. *)
Example blank_line_in_three_languages :
  let code := lit "x = 1" ++ [autocomplete_service.newline] ++ lit "   " in
  autocomplete_service.generate_suggestion code 9 (lit "Python")
  = (lit "pass", 60)
  ∧ autocomplete_service.generate_suggestion code 9 (lit "JS") = (lit ";", 60)
  ∧ autocomplete_service.generate_suggestion code 9 (lit "Rust")
    = (lit "// TODO: ", 50).
Proof. cbv zeta. split; [compute_done|]. split; compute_done. Qed.

End MoreExamples.

(** * Coercion by validation, and what [json.loads] raises *)

Section LimitsExamples.
#[local] Existing Instance codec_with_limits.
#[local] Existing Instance lax_validators.
#[local] Existing Instance fresh_session.

(** C3, as stated, fails on an update whose [timestamp] is the string "42":
    validation makes the integer 42 of it, and that is what the peers are
    sent, not the sender's value. *)
Lemma string_timestamp_reaches_peers_as_integer :
  let kwargs :=
    [("type", JStr "code_update"); ("code", JStr "x=1");
     ("timestamp", JStr "42")] in
  let sent :=
    dumps (JObj [("type", JStr "code_update"); ("code", JStr "x=1");
                 ("timestamp", JInt 42)]) in
  json_loads (dumps (JObj kwargs)) = Some (JObj kwargs)
  ∧ dict_get "timestamp" kwargs = Some (JStr "42")
  ∧ validate_message kwargs
    = Some (mkWebSocketMessage "code_update" (Some "x=1") (Some 42%Z)
              None None)
  ∧ loop_body "abcd1234" 1 (dumps (JObj kwargs)) example_world
    = (Ret (),
       mkWorld {["abcd1234" := [1; 3]]} {["abcd1234" := "x=1"]} true {[2]}
         [StoreUpdate "abcd1234" "x=1"; Send 2 sent false; Send 3 sent true])
  ∧ sent ≠ dumps (JObj kwargs)
  ∧ JInt 42 ≠ JStr "42".
Proof.
  cbv zeta. split; [compute_done|]. split; [compute_done|].
  split; [compute_done|]. split; [compute_done|]. split; [compute_done|].
  discriminate.
Qed.

Lemma iteration_raises_in_three_cases_only_witness :
  (ValueError = TypeError
   ∧ ∃ v, json_loads beyond_digit_limit = Some v
          ∧ ∀ kwargs, v ≠ JObj kwargs)
  ∨ (ValueError = RuntimeError ∧ 1 ∈ broken example_world)
  ∨ (json_loads beyond_digit_limit = None
     ∧ ValueError = json_loads_error beyond_digit_limit
     ∧ ValueError ≠ JSONDecodeError
     ∧ ValueError ≠ ValidationError).
Proof.
  apply (iteration_raises_in_three_cases_only
           example_world example_world "abcd1234" 1 beyond_digit_limit
           ValueError).
  vm_compute. reflexivity.
Defined.

Lemma loads_failure_other_than_decode_ends_session_witness :
  loop_body "abcd1234" 1 beyond_digit_limit example_world
  = (Raise (json_loads_error beyond_digit_limit), example_world)
  ∧ resume 1 "abcd1234" [Text beyond_digit_limit; Text (dumps frame_update)]
      example_world
    = (Ret Returned,
       set_connections
         (registry_remove "abcd1234" 1 (active_connections example_world))
         example_world)
  ∧ trace (snd (resume 1 "abcd1234"
                  [Text beyond_digit_limit; Text (dumps frame_update)]
                  example_world))
    = trace example_world.
Proof.
  apply (loads_failure_other_than_decode_ends_session
           example_world "abcd1234" 1 beyond_digit_limit
           [Text (dumps frame_update)]).
  - vm_compute. reflexivity.
  - vm_compute. discriminate.
  - vm_compute. discriminate.
Defined.

(** An integer literal too long for the interpreter: the sender gets no
    reply and is gone from the room. *)
Example long_integer_drops_sender :
  let w' := snd (resume 1 "abcd1234" [Text beyond_digit_limit] example_world) in
  fst (resume 1 "abcd1234" [Text beyond_digit_limit] example_world)
  = Ret Returned
  ∧ trace w' = []
  ∧ members "abcd1234" w' = [2; 3].
Proof. cbv zeta. split; [|split]; vm_compute; reflexivity. Qed.

End LimitsExamples.

(** * A session that holds the value assigned *)

Section StaleExamples.
#[local] Existing Instance example_codec.
#[local] Existing Instance strict_validators.
#[local] Existing Instance stale_session.

Lemma unflushed_update_is_broadcast_not_stored_witness :
  fst (loop_body "abcd1234" 1 (dumps frame_update) example_world) = Ret ()
  ∧ Send 3
      (json_dumps
         (JObj [("type", JStr "code_update");
                ("code", JStr "x=1");
                ("timestamp", JInt 42)])) true
    ∈ trace (snd (loop_body "abcd1234" 1 (dumps frame_update) example_world))
  ∧ rooms (snd (loop_body "abcd1234" 1 (dumps frame_update) example_world))
    = rooms example_world
  ∧ get_room "abcd1234"
      (snd (loop_body "abcd1234" 1 (dumps frame_update) example_world))
    = (Ret (Some ""),
       snd (loop_body "abcd1234" 1 (dumps frame_update) example_world)).
Proof.
  apply (unflushed_update_is_broadcast_not_stored
           example_world "abcd1234" 1 3 (dumps frame_update)
           [("type", JStr "code_update"); ("code", JStr "x=1");
            ("timestamp", JInt 42)]
           (mkWebSocketMessage "code_update" (Some "x=1") (Some 42%Z)
              None None)
           "x=1" "");
    compute_done.
Defined.

End StaleExamples.
